(** * Porta-Spotty backend: record store, rating aggregation, proximity query

    A shallow embedding of [backend/app/main.py].  The three module-level
    globals ([toilets_db], [ratings_db], [next_toilet_id]) become one
    [State] record that every endpoint takes and returns; an endpoint that
    raises returns [Raise] and the state it was given.

    Python's [float] is kept abstract behind two interfaces: [PyFloat], the
    arithmetic that IEEE 754 pins down, and [Libm], the functions that go
    through the C library ([math.sin], [math.cos], [math.sqrt],
    [math.atan2], [**]) and either return a float or raise.  [PyFloat] has
    two instances: binary64 through Rocq's primitive floats, on which the
    store can be run, and the real numbers, the exact arithmetic that the
    floating-point results approximate.  [Libm] has the exact instance,
    and for binary64 a reference C library under the checks that the
    interpreter makes. *)

From Stdlib Require Import ZArith List String Bool Lia.
From Stdlib Require Import Floats SpecFloat.
From Stdlib Require Import Reals Lra.
Import ListNotations.

Set Implicit Arguments.
Open Scope Z_scope.

(** ** Outcomes *)

(** The exceptions that this program raises or lets through. *)
Inductive exception : Type :=
| HTTPException (status_code : Z) (detail : string)
| ValueError (msg : string)
| OverflowError (msg : string)
| ZeroDivisionError (msg : string).

(** What a call comes to: the value it returns or the exception it
    raises. *)
Inductive result (A : Type) : Type :=
| Ok (a : A)
| Raise (e : exception).
Arguments Ok {A} a.
Arguments Raise {A} e.

Definition bind {A B : Type} (r : result A) (k : A -> result B) : result B :=
  match r with
  | Ok a => k a
  | Raise e => Raise e
  end.

Notation "x <- r ;; k" := (bind r (fun x => k))
  (at level 61, r at next level, right associativity).

(** ** Numbers *)

(** The float arithmetic of this program that IEEE 754 pins down, with the
    two ways an int becomes a float. *)
Class PyFloat (F : Type) : Type := {
  of_int : Z -> F;            (* an int operand meeting a float one *)
  int_truediv : Z -> Z -> F;  (* [n / m] on two ints, [m] not zero *)
  pi : F;                     (* [math.pi] *)
  fadd : F -> F -> F;
  fsub : F -> F -> F;
  fmul : F -> F -> F;
  fdiv : F -> F -> F;         (* [x / y], [y] not zero *)
  fle : F -> F -> bool        (* [x <= y] *)
}.

(** [math.radians(x)]: [x] times the constant [pi / 180]. *)
Definition radians {F : Type} {PF : PyFloat F} (x : F) : F :=
  fmul x (fdiv pi (of_int 180)).

(** What goes through the C library: the [math] functions of
    [haversine_km], and [x ** n] for a float [x] and an int [n].  Each
    returns a float or raises (a [ValueError] outside its domain, an
    [OverflowError] out of range). *)
Class Libm (F : Type) : Type := {
  sin : F -> result F;
  cos : F -> result F;
  sqrt : F -> result F;
  atan2 : F -> F -> result F;
  fpow : F -> Z -> result F
}.

(** *** IEEE binary64 *)

Module Binary64.

Definition Z2SF (n : Z) : spec_float :=
  match n with
  | Z0 => S754_zero false
  | Zpos p => S754_finite false p 0
  | Zneg p => S754_finite true p 0
  end.

(** [float(n)]: the nearest double, ties to even. *)
Definition double_of_int (n : Z) : float :=
  SF2Prim (binary_normalize prec emax n 0 false).

(** [n / m] on ints is the correctly rounded quotient of the two exact
    integers, not the quotient of their roundings. *)
Definition double_truediv (n m : Z) : float :=
  SF2Prim (SFdiv prec emax (Z2SF n) (Z2SF m)).

#[global] Instance binary64 : PyFloat float := {|
  of_int := double_of_int;
  int_truediv := double_truediv;
  pi := 0x1.921fb54442d18p+1%float;
  fadd := PrimFloat.add;
  fsub := PrimFloat.sub;
  fmul := PrimFloat.mul;
  fdiv := PrimFloat.div;
  fle := PrimFloat.leb
|}.

End Binary64.

(** *** Exact real arithmetic *)

Module Exact.

Definition Rleb (x y : R) : bool := if Rle_dec x y then true else false.

(** The two-argument arctangent, by quadrant. *)
Definition Ratan2 (y x : R) : R :=
  if Rlt_dec 0 x then atan (y / x)
  else if Rlt_dec x 0 then
    (if Rle_dec 0 y then atan (y / x) + PI else atan (y / x) - PI)%R
  else if Rlt_dec 0 y then (PI / 2)%R
  else if Rlt_dec y 0 then (- (PI / 2))%R
  else 0%R.

(** The great-circle distance as the specification words it, written
    apart from the code: on a sphere of radius 6371 km, the distance between
    two points given by their latitude and longitude in degrees is the
    radius times the angle, in radians, between the two unit vectors that
    point at them from the centre. *)
Definition to_radians (degrees : R) : R := (degrees * PI / 180)%R.

Definition unit_vector (lat lon : R) : R * R * R :=
  let phi := to_radians lat in
  let lambda := to_radians lon in
  (Rtrigo_def.cos phi * Rtrigo_def.cos lambda,
   Rtrigo_def.cos phi * Rtrigo_def.sin lambda,
   Rtrigo_def.sin phi)%R.

Definition dot (u v : R * R * R) : R :=
  let '(ux, uy, uz) := u in
  let '(vx, vy, vz) := v in
  (ux * vx + uy * vy + uz * vz)%R.

Definition central_angle (lat1 lon1 lat2 lon2 : R) : R :=
  acos (dot (unit_vector lat1 lon1) (unit_vector lat2 lon2)).

Definition great_circle_km (lat1 lon1 lat2 lon2 : R) : R :=
  (6371 * central_angle lat1 lon1 lat2 lon2)%R.

#[global] Instance real : PyFloat R := {|
  of_int := IZR;
  int_truediv := fun n m => (IZR n / IZR m)%R;
  pi := PI;
  fadd := Rplus;
  fsub := Rminus;
  fmul := Rmult;
  fdiv := Rdiv;
  fle := Rleb
|}.

(** The square root is that of a number that is not negative. *)
Definition Rsqrt_checked (x : R) : result R :=
  if Rle_dec 0 x then Ok (R_sqrt.sqrt x)
  else Raise (ValueError "math domain error").

(** Zero has no negative power. *)
Definition Rpow_checked (x : R) (n : Z) : result R :=
  if n <? 0 then
    if Req_dec_T x 0 then
      Raise (ZeroDivisionError "0.0 cannot be raised to a negative power")
    else Ok (powerRZ x n)
  else Ok (powerRZ x n).

#[global] Instance real_libm : Libm R := {|
  sin := fun x => Ok (Rtrigo_def.sin x);
  cos := fun x => Ok (Rtrigo_def.cos x);
  sqrt := Rsqrt_checked;
  atan2 := fun y x => Ok (Ratan2 y x);
  fpow := Rpow_checked
|}.

End Exact.

(** *** A reference C library for binary64

    [math.sin], [math.cos], [math.sqrt], [math.atan2] and [**] hand their
    arguments to the C library and check what comes back.  The C functions
    are given here by their mathematical value, summed in integer
    arithmetic from a series cut off far below the last bit of a double
    and rounded once, to the nearest double; the root is the IEEE one.  A
    C library may differ from this one in the last bit of a result; on
    zeros, infinities and NaN the C standard leaves it no choice. *)

Module Reference.

Import Binary64.

(** The integer part of [pi * 2 ^ 1600]. *)
Definition pi_1600 : Z :=
  0x3243f6a8885a308d313198a2e03707344a4093822299f31d0082efa98ec4e6c89452821e638d01377be5466cf34e90c6cc0ac29b7c97c50dd3f84d5b5b54709179216d5d98979fb1bd1310ba698dfb5ac2ffd72dbd01adfb7b8e1afed6a267e96ba7c9045f12c7f9924a19947b3916cf70801f2e2858efc16636920d871574e69a458fea3f4933d7e0d95748f728eb658718bcd5882154aee7b54a41dc25a59b59c30d5392af26013c5d1b023286085f0ca417918b8db38ef8e79dcb0603a180e6c9e0e8bb01e8a3e.

(** A fraction [n / d] with [d > 0]. *)
Definition fraction : Type := (Z * Z)%type.

(** Both parts cut down together to some 400 binary digits. *)
Definition trim (q : fraction) : fraction :=
  let '(n, d) := q in
  let s := Z.min (Z.log2 (Z.abs n)) (Z.log2 d) - 400 in
  if 0 <? s then (Z.shiftr n s, Z.shiftr d s) else q.

Definition unit : fraction := (1, 1).

Definition mulq (a b : fraction) : fraction :=
  trim (fst a * fst b, snd a * snd b).

Definition addq (a b : fraction) : fraction :=
  trim (fst a * snd b + fst b * snd a, snd a * snd b).

Definition subq (a b : fraction) : fraction :=
  trim (fst a * snd b - fst b * snd a, snd a * snd b).

Definition negq (a : fraction) : fraction := (- fst a, snd a).

(** [a / b] for [b > 0]. *)
Definition divq (a b : fraction) : fraction :=
  trim (fst a * snd b, snd a * fst b).

Definition leq (a b : fraction) : bool :=
  fst a * snd b <=? fst b * snd a.

(** The absolute value of a finite float, exactly. *)
Definition magnitude (x : float) : fraction :=
  match Prim2SF x with
  | S754_finite _ m e =>
      if 0 <=? e then (Z.pos m * 2 ^ e, 1) else (Z.pos m, 2 ^ (- e))
  | _ => (0, 1)
  end.

(** The double nearest to a fraction, ties to even. *)
Definition nearest (q : fraction) : float :=
  double_truediv (fst q) (snd q).

(** [1 - z / (j (j + 1)) * (1 - z / ((j + 2) (j + 3)) * (1 - ...))],
    [n] levels deep: with [z = r ^ 2], the cosine of [r] from [j = 1] and
    the sine of [r] over [r] from [j = 2]. *)
Fixpoint alternating (n : nat) (j : Z) (z : fraction) : fraction :=
  match n with
  | O => unit
  | S n' =>
      subq unit (divq (mulq z (alternating n' (j + 2) z)) (j * (j + 1), 1))
  end.

Definition sin_series (r : fraction) : fraction :=
  mulq r (alternating 25 2 (mulq r r)).

Definition cos_series (r : fraction) : fraction :=
  alternating 25 1 (mulq r r).

(** The multiple [k] of [pi / 2] nearest to [q >= 0], and what is left of
    [q] when it is taken away, between [- pi / 4] and [pi / 4]. *)
Definition quarter_turns (q : fraction) : Z * fraction :=
  let '(n, d) := q in
  let k := (4 * n * 2 ^ 1600 + pi_1600 * d) / (2 * pi_1600 * d) in
  (k, trim (n * 2 ^ 1601 - k * pi_1600 * d, d * 2 ^ 1601)).

(** The sine and the cosine of [q >= 0]. *)
Definition sin_of (q : fraction) : fraction :=
  let '(k, r) := quarter_turns q in
  match k mod 4 with
  | 0 => sin_series r
  | 1 => cos_series r
  | 2 => negq (sin_series r)
  | _ => negq (cos_series r)
  end.

Definition cos_of (q : fraction) : fraction :=
  let '(k, r) := quarter_turns q in
  match k mod 4 with
  | 0 => cos_series r
  | 1 => negq (sin_series r)
  | 2 => negq (cos_series r)
  | _ => sin_series r
  end.

(** The C function [sin]: odd, a zero for a zero, NaN at the
    infinities. *)
Definition c_sin (x : float) : float :=
  match Prim2SF x with
  | S754_nan | S754_infinity _ => nan
  | S754_zero _ => x
  | S754_finite s _ _ =>
      let r := nearest (sin_of (magnitude x)) in
      if s then (- r)%float else r
  end.

(** The C function [cos]: even, NaN at the infinities. *)
Definition c_cos (x : float) : float :=
  match Prim2SF x with
  | S754_nan | S754_infinity _ => nan
  | S754_zero _ => 1%float
  | S754_finite _ _ _ => nearest (cos_of (magnitude x))
  end.

(** [1 + j / (j + 1) * w * (1 + (j + 2) / (j + 3) * w * (1 + ...))],
    [n] levels deep: with [w = t ^ 2 / (1 + t ^ 2)] and [j = 2], the arc
    tangent of [t] over [t / (1 + t ^ 2)]. *)
Fixpoint euler (n : nat) (j : Z) (w : fraction) : fraction :=
  match n with
  | O => unit
  | S n' => addq unit (mulq (mulq (j, j + 1) w) (euler n' (j + 2) w))
  end.

(** The arc tangent of [t] for [0 <= t <= 1]. *)
Definition atan_series (t : fraction) : fraction :=
  let z := mulq t t in
  let w := divq z (addq unit z) in
  mulq (divq t (addq unit z)) (euler 140 2 w).

(** The C function [atan2 (y, x)] for [y] finite and not zero and [x]
    finite. *)
Definition c_atan2 (y x : float) : float :=
  let ay := magnitude y in
  let ax := magnitude x in
  let half_pi : fraction := (pi_1600, 2 ^ 1601) in
  let acute :=
    if is_zero x then half_pi
    else if leq ay ax then atan_series (divq ay ax)
    else subq half_pi (atan_series (divq ax ay)) in
  let r :=
    nearest (if get_sign x then subq (pi_1600, 2 ^ 1600) acute else acute) in
  if get_sign y then (- r)%float else r.

(** The C function [pow (x, n)] for [x] finite and positive and [n] a
    whole number. *)
Definition c_pow (x : float) (n : Z) : float :=
  let '(p, q) := magnitude x in
  let k := Z.abs n in
  nearest (if n <? 0 then (q ^ k, p ^ k) else (p ^ k, q ^ k)).

Definition copysign (a b : float) : float :=
  if get_sign b then (- abs a)%float else abs a.

(** [math_1] of the interpreter's [mathmodule.c], around a C function of
    one argument that cannot overflow: a NaN from an argument that is not
    one, or an infinity from a finite argument, is a domain error. *)
Definition math_1 (f : float -> float) (x : float) : result float :=
  let r := f x in
  if is_nan r && negb (is_nan x) then Raise (ValueError "math domain error")
  else if is_infinity r && is_finite x then
    Raise (ValueError "math domain error")
  else Ok r.

(** [m_atan2] of [mathmodule.c]: the special values are settled there,
    the others by the C function. *)
Definition m_atan2 (y x : float) : float :=
  if is_nan x || is_nan y then nan
  else if is_infinity y then
    if is_infinity x then
      if get_sign x then copysign (0.75 * pi)%float y
      else copysign (0.25 * pi)%float y
    else copysign (0.5 * pi)%float y
  else if is_infinity x || is_zero y then
    if get_sign x then copysign pi y else copysign 0%float y
  else c_atan2 y x.

(** [math_2] of [mathmodule.c], around a function of two arguments. *)
Definition math_2 (f : float -> float -> float) (x y : float)
  : result float :=
  let r := f x y in
  if is_nan r && negb (is_nan x) && negb (is_nan y) then
    Raise (ValueError "math domain error")
  else if is_infinity r && is_finite x && is_finite y then
    Raise (OverflowError "math range error")
  else Ok r.

(** [float_pow] of [floatobject.c] for an [int] exponent: the special
    values are settled there, the others by the C function on the
    absolute value. *)
Definition float_pow (x : float) (n : Z) : result float :=
  if n =? 0 then Ok 1%float
  else if is_nan x then Ok x
  else if is_infinity x then
    Ok (if 0 <? n then (if Z.odd n then x else abs x)
        else (if Z.odd n then copysign 0%float x else 0%float))
  else if is_zero x then
    if n <? 0 then
      Raise (ZeroDivisionError "0.0 cannot be raised to a negative power")
    else Ok (if Z.odd n then x else 0%float)
  else
    let r := c_pow (abs x) n in
    if is_infinity r then
      Raise (OverflowError "(34, 'Numerical result out of range')")
    else Ok (if get_sign x && Z.odd n then (- r)%float else r).

Definition libm : Libm float := {|
  sin := math_1 c_sin;
  cos := math_1 c_cos;
  sqrt := math_1 PrimFloat.sqrt;
  atan2 := math_2 m_atan2;
  fpow := float_pow
|}.

End Reference.

(** ** Data models *)

Record RatingCreate : Type := {
  cleanliness : Z;  (* range 1-5 *)
  comment : option string
}.

(** An entry of [ratings_db]: the dict with keys ["toilet_id"],
    ["cleanliness"] and ["comment"]. *)
Record Rating : Type := {
  toilet_id : Z;
  r_cleanliness : Z;
  r_comment : option string
}.

(** The two errors that the endpoints raise themselves. *)
Definition NotFound : exception := HTTPException 404 "Restroom not found".
Definition InvalidInput : exception :=
  HTTPException 400 "cleanliness must be 1–5".

Section Backend.

Context {F : Type} {PF : PyFloat F}.

Record ToiletCreate : Type := {
  tc_name : string;
  tc_latitude : F;
  tc_longitude : F;
  tc_is_free : bool;
  tc_wheelchair : option bool;
  tc_running_water : option bool;
  tc_indoor : option bool;
  tc_open_in_winter : option bool;
  tc_gender_neutral : option bool;
  tc_baby_change : option bool;
  tc_menstrual_products : option bool
}.

Record Toilet : Type := {
  id : Z;
  name : string;
  latitude : F;
  longitude : F;
  is_free : bool;
  wheelchair : option bool;
  running_water : option bool;
  indoor : option bool;
  open_in_winter : option bool;
  gender_neutral : option bool;
  baby_change : option bool;
  menstrual_products : option bool;
  avg_cleanliness : option F;
  rating_count : Z
}.

(** The stand-in database. *)
Record State : Type := {
  toilets_db : list Toilet;
  ratings_db : list Rating;
  next_toilet_id : Z
}.

Definition init : State :=
  {| toilets_db := []; ratings_db := []; next_toilet_id := 1 |}.

(** ** Utility functions *)

(** [t.avg_cleanliness = a; t.rating_count = n] *)
Definition set_stats (a : option F) (n : Z) (t : Toilet) : Toilet :=
  {| id := id t; name := name t;
     latitude := latitude t; longitude := longitude t;
     is_free := is_free t; wheelchair := wheelchair t;
     running_water := running_water t; indoor := indoor t;
     open_in_winter := open_in_winter t;
     gender_neutral := gender_neutral t;
     baby_change := baby_change t;
     menstrual_products := menstrual_products t;
     avg_cleanliness := a; rating_count := n |}.

(** [[r["cleanliness"] for r in ratings_db if r["toilet_id"] == toilet_id]] *)
Definition scores_of (tid : Z) (log : list Rating) : list Z :=
  map r_cleanliness (filter (fun r => toilet_id r =? tid) log).

(** [sum(scores)]: a left-to-right accumulation from 0. *)
Definition sum (scores : list Z) : Z := fold_left Z.add scores 0.

(** [len(scores)] *)
Definition len {A : Type} (l : list A) : Z := Z.of_nat (List.length l).

(** The body of the [if t.id == toilet_id] branch of
    [recompute_rating_stats]. *)
Definition restat (scores : list Z) (t : Toilet) : Toilet :=
  match scores with
  | _ :: _ => set_stats (Some (int_truediv (sum scores) (len scores)))
                        (len scores) t
  | [] => set_stats None 0 t
  end.

(** [for t in toilets_db: if t.id == toilet_id: ...; break]: the first
    record with the identifier is mutated in place, the scan stops. *)
Fixpoint recompute_in (tid : Z) (scores : list Z) (db : list Toilet)
  : list Toilet :=
  match db with
  | [] => []
  | t :: rest =>
      if id t =? tid then restat scores t :: rest
      else t :: recompute_in tid scores rest
  end.

Definition recompute_rating_stats (tid : Z) (s : State) : State :=
  let scores := scores_of tid (ratings_db s) in
  {| toilets_db := recompute_in tid scores (toilets_db s);
     ratings_db := ratings_db s;
     next_toilet_id := next_toilet_id s |}.

(** ** API endpoints *)

Definition root : string * string :=
  ("message", "Succesfully running Porta-Spotty backend!")%string.

Definition create_toilet (toilet : ToiletCreate) (s : State)
  : Toilet * State :=
  let new :=
    {| id := next_toilet_id s;
       name := tc_name toilet;
       latitude := tc_latitude toilet;
       longitude := tc_longitude toilet;
       is_free := tc_is_free toilet;
       wheelchair := tc_wheelchair toilet;
       running_water := tc_running_water toilet;
       indoor := tc_indoor toilet;
       open_in_winter := tc_open_in_winter toilet;
       gender_neutral := tc_gender_neutral toilet;
       baby_change := tc_baby_change toilet;
       menstrual_products := tc_menstrual_products toilet;
       avg_cleanliness := None;
       rating_count := 0 |} in
  (new,
   {| toilets_db := toilets_db s ++ [new];
      ratings_db := ratings_db s;
      next_toilet_id := next_toilet_id s + 1 |}).

(** [for t in toilets_db: if t.id == toilet_id: return t] *)
Fixpoint first_with_id (tid : Z) (db : list Toilet) : option Toilet :=
  match db with
  | [] => None
  | t :: rest => if id t =? tid then Some t else first_with_id tid rest
  end.

Definition get_toilet (tid : Z) (s : State) : result Toilet :=
  match first_with_id tid (toilets_db s) with
  | Some t => Ok t
  | None => Raise NotFound
  end.

(** The same scan in [add_rating], where the record found is mutated by
    [recompute_rating_stats] before it is returned: the scan yields the
    position of the record, which stands for the object, and the value
    returned is read at that position once the statistics are rewritten. *)
Fixpoint find_id (tid : Z) (db : list Toilet) : option nat :=
  match db with
  | [] => None
  | t :: rest =>
      if id t =? tid then Some O
      else option_map S (find_id tid rest)
  end.

Definition add_rating (tid : Z) (rating : RatingCreate) (s : State)
  : result Toilet * State :=
  if negb ((1 <=? cleanliness rating) && (cleanliness rating <=? 5)) then
    (Raise InvalidInput, s)
  else
    match find_id tid (toilets_db s) with
    | Some i =>
        let appended :=
          {| toilets_db := toilets_db s;
             ratings_db := ratings_db s ++
               [{| toilet_id := tid;
                   r_cleanliness := cleanliness rating;
                   r_comment := comment rating |}];
             next_toilet_id := next_toilet_id s |} in
        let s' := recompute_rating_stats tid appended in
        match nth_error (toilets_db s') i with
        | Some t => (Ok t, s')
        | None => (Raise NotFound, s)  (* no such case: [i] is in range *)
        end
    | None => (Raise NotFound, s)
    end.

(** *** The proximity query *)

Section Proximity.

Context {LM : Libm F}.

(** The calls into the C library are made in the order in which Python
    evaluates the operands, left to right; the first one to raise ends
    the computation.  The float literal [6371.0] and the int operands [2]
    and [1] of the float operations are whole numbers, written with
    [of_int]. *)
Definition haversine_km (lat1 lon1 lat2 lon2 : F) : result F :=
  let R := of_int 6371 in
  let phi1 := radians lat1 in
  let phi2 := radians lat2 in
  let dphi := radians (fsub lat2 lat1) in
  let dlambda := radians (fsub lon2 lon1) in
  sin_dphi <- sin (fdiv dphi (of_int 2)) ;;
  sin_dphi_2 <- fpow sin_dphi 2 ;;
  cos_phi1 <- cos phi1 ;;
  cos_phi2 <- cos phi2 ;;
  sin_dlambda <- sin (fdiv dlambda (of_int 2)) ;;
  sin_dlambda_2 <- fpow sin_dlambda 2 ;;
  let a := fadd sin_dphi_2 (fmul (fmul cos_phi1 cos_phi2) sin_dlambda_2) in
  sqrt_a <- sqrt a ;;
  sqrt_1_a <- sqrt (fsub (of_int 1) a) ;;
  angle <- atan2 sqrt_a sqrt_1_a ;;
  let c := fmul (of_int 2) angle in
  Ok (fmul R c).

(** The [for] loop of [list_toilets], [results] being the accumulator. *)
Fixpoint scan (lat lng radius_km : F) (db results : list Toilet)
  : result (list Toilet) :=
  match db with
  | [] => Ok results
  | t :: rest =>
      d <- haversine_km lat lng (latitude t) (longitude t) ;;
      if fle d radius_km then scan lat lng radius_km rest (results ++ [t])
      else scan lat lng radius_km rest results
  end.

(** [radius_km] is [None] when the query string leaves it out, and then
    the default [2.0] of the parameter is taken. *)
Definition list_toilets (lat lng : F) (radius_km : option F) (s : State)
  : result (list Toilet) :=
  let radius_km :=
    match radius_km with Some r => r | None => of_int 2 end in
  scan lat lng radius_km (toilets_db s) [].

(** *** The service: one request after another

    Requests are served one at a time, each running to completion on
    the state left by the one before. *)

Inductive Request : Type :=
| GetRoot
| PostToilet (toilet : ToiletCreate)
| GetToilets (lat lng : F) (radius_km : option F)
| GetToilet (tid : Z)
| PostRating (tid : Z) (rating : RatingCreate).

Inductive Response : Type :=
| Message (m : string * string)
| OneToilet (t : Toilet)
| Toilets (ts : list Toilet)
| Failed (e : exception).

Definition respond (r : result Toilet) : Response :=
  match r with
  | Ok t => OneToilet t
  | Raise e => Failed e
  end.

Definition handle (rq : Request) (s : State) : Response * State :=
  match rq with
  | GetRoot => (Message root, s)
  | PostToilet toilet =>
      let (t, s') := create_toilet toilet s in (OneToilet t, s')
  | GetToilets lat lng radius_km =>
      match list_toilets lat lng radius_km s with
      | Ok ts => (Toilets ts, s)
      | Raise e => (Failed e, s)
      end
  | GetToilet tid => (respond (get_toilet tid s), s)
  | PostRating tid rating =>
      let (r, s') := add_rating tid rating s in (respond r, s')
  end.

Fixpoint serve (rqs : list Request) (s : State)
  : list Response * State :=
  match rqs with
  | [] => ([], s)
  | rq :: rest =>
      let (r, s1) := handle rq s in
      let (rs, s2) := serve rest s1 in
      (r :: rs, s2)
  end.

Definition is_create (rq : Request) : bool :=
  match rq with
  | PostToilet _ => true
  | _ => false
  end.

(** The records returned by the create requests of a run, in order. *)
Fixpoint created (rqs : list Request) (rs : list Response)
  : list Toilet :=
  match rqs, rs with
  | PostToilet _ :: rqs', OneToilet t :: rs' => t :: created rqs' rs'
  | _ :: rqs', _ :: rs' => created rqs' rs'
  | _, _ => []
  end.

(** The bodies of the create requests of a run, in order. *)
Fixpoint create_requests (rqs : list Request) : list ToiletCreate :=
  match rqs with
  | [] => []
  | PostToilet toilet :: rest => toilet :: create_requests rest
  | _ :: rest => create_requests rest
  end.

End Proximity.

(** ** Vocabulary of the properties *)

(** A record is within the radius of a centre when its distance from the
    centre is defined and at most the radius. *)
Definition within {LM : Libm F} (lat lng radius_km : F) (t : Toilet) : bool :=
  match haversine_km lat lng (latitude t) (longitude t) with
  | Ok d => fle d radius_km
  | Raise _ => false
  end.

(** The Rating Event that a submission appends. *)
Definition new_event (tid : Z) (rating : RatingCreate) : Rating :=
  {| toilet_id := tid;
     r_cleanliness := cleanliness rating;
     r_comment := comment rating |}.

(** The Rating Events of one record. *)
Definition events_for (tid : Z) (log : list Rating) : list Rating :=
  filter (fun r => toilet_id r =? tid) log.

(** The sum of a list of integers, as a sum. *)
Fixpoint total (xs : list Z) : Z :=
  match xs with
  | [] => 0
  | x :: xs' => x + total xs'
  end.

(** The arithmetic mean of some integers: their total over their number,
    and nothing when there are none. *)
Definition arithmetic_mean (xs : list Z) : option F :=
  match xs with
  | [] => None
  | _ :: _ => Some (int_truediv (total xs) (len xs))
  end.

(** The cached statistics of a record agree with the event log. *)
Definition stats_agree (log : list Rating) (t : Toilet) : Prop :=
  rating_count t = len (events_for (id t) log) /\
  avg_cleanliness t =
    arithmetic_mean (map r_cleanliness (events_for (id t) log)).

Definition consistent (s : State) : Prop :=
  Forall (stats_agree (ratings_db s)) (toilets_db s).

(** Everything about a record but its two statistics. *)
Definition same_description (t u : Toilet) : Prop :=
  id t = id u /\ name t = name u /\
  latitude t = latitude u /\ longitude t = longitude u /\
  is_free t = is_free u /\ wheelchair t = wheelchair u /\
  running_water t = running_water u /\ indoor t = indoor u /\
  open_in_winter t = open_in_winter u /\
  gender_neutral t = gender_neutral u /\
  baby_change t = baby_change u /\
  menstrual_products t = menstrual_products u.

(** The integers [start], [start + 1], ..., [n] of them. *)
Fixpoint count_from (start : Z) (n : nat) : list Z :=
  match n with
  | O => []
  | S n' => start :: count_from (start + 1) n'
  end.

(** The identifiers in the store are 1, 2, ... in insertion order, the
    next one to give out follows them, and every event in the log is
    about an identifier already given out. *)
Definition well_formed (s : State) : Prop :=
  map id (toilets_db s) = count_from 1 (List.length (toilets_db s)) /\
  next_toilet_id s = 1 + len (toilets_db s) /\
  Forall (fun r => 1 <= toilet_id r < next_toilet_id s) (ratings_db s).

(** One state extends another: the log of the first is the front of the
    log of the second, the identifier counter has not gone down, and every
    record of the first is at the same position in the second, its
    statistics apart. *)
Definition extends (s s' : State) : Prop :=
  (exists added, ratings_db s' = ratings_db s ++ added) /\
  next_toilet_id s <= next_toilet_id s' /\
  (forall i u,
      nth_error (toilets_db s) i = Some u ->
      exists u', nth_error (toilets_db s') i = Some u' /\
                 same_description u' u).

End Backend.

Arguments ToiletCreate : clear implicits.
Arguments Toilet : clear implicits.
Arguments State : clear implicits.
Arguments Request : clear implicits.
Arguments Response : clear implicits.

(** ** Sample data *)

Module Sample.

#[local] Set Warnings "-inexact-float".

Definition central_park : ToiletCreate float :=
  {| tc_name := "Central Park North";
     tc_latitude := 40.7829%float;
     tc_longitude := (-73.9654)%float;
     tc_is_free := true;
     tc_wheelchair := Some true;
     tc_running_water := None;
     tc_indoor := Some false;
     tc_open_in_winter := None;
     tc_gender_neutral := None;
     tc_baby_change := None;
     tc_menstrual_products := None |}.

Definition nameless : ToiletCreate float :=
  {| tc_name := "";
     tc_latitude := 40.7829%float;
     tc_longitude := (-73.9654)%float;
     tc_is_free := true;
     tc_wheelchair := None;
     tc_running_water := None;
     tc_indoor := None;
     tc_open_in_winter := None;
     tc_gender_neutral := None;
     tc_baby_change := None;
     tc_menstrual_products := None |}.

Definition rate (c : Z) : RatingCreate := {| cleanliness := c; comment := None |}.

(** One record in the store, no rating yet. *)
Definition central_park_record : Toilet float :=
  fst (create_toilet central_park init).

Definition one_record : State float := snd (create_toilet central_park init).

(** The same after the ratings 3 and 4, then after the rating 5. *)
Definition rated_3_4 : State float :=
  snd (add_rating 1 (rate 4) (snd (add_rating 1 (rate 3) one_record))).

Definition rated_3_4_5 : State float :=
  snd (add_rating 1 (rate 5) rated_3_4).

Definition central_park_rated : Toilet float :=
  set_stats (Some 4%float) 3 central_park_record.

(** A record made from a request with an empty name. *)
Definition nameless_record : Toilet float :=
  {| id := 1;
     name := "";
     latitude := 40.7829%float;
     longitude := (-73.9654)%float;
     is_free := true;
     wheelchair := None;
     running_water := None;
     indoor := None;
     open_in_winter := None;
     gender_neutral := None;
     baby_change := None;
     menstrual_products := None;
     avg_cleanliness := None;
     rating_count := 0 |}.

(** A request in exact arithmetic, coordinates in whole degrees. *)
Definition equator : ToiletCreate R :=
  {| tc_name := "Equator";
     tc_latitude := 0%R;
     tc_longitude := 12%R;
     tc_is_free := false;
     tc_wheelchair := None;
     tc_running_water := Some true;
     tc_indoor := None;
     tc_open_in_winter := None;
     tc_gender_neutral := None;
     tc_baby_change := None;
     tc_menstrual_products := None |}.

Definition equator_record : Toilet R := fst (create_toilet equator init).

Definition equator_store : State R := snd (create_toilet equator init).

(** The same record after one rating of 4, and the store that holds it. *)
Definition equator_rated : Toilet R :=
  set_stats (Some (IZR 4 / IZR 1)%R) 1 equator_record.

Definition equator_rated_store : State R :=
  {| toilets_db := [equator_rated];
     ratings_db := [new_event 1 (rate 4)];
     next_toilet_id := 2 |}.

(** A run that creates the record, rates it 4 and looks it up. *)
Definition sample_run : list (Request R) :=
  [PostToilet equator; PostRating 1 (rate 4); GetToilet 1].

(** Two records in the store, no rating yet. *)
Definition two_records : State float := snd (create_toilet nameless one_record).









End Sample.

(** * Properties *)

Section StoreFacts.

Context {F : Type} {PF : PyFloat F}.

Implicit Types (s : State F) (t u : Toilet F) (db : list (Toilet F)).
Implicit Types (tid : Z) (log : list Rating) (scores : list Z).

(** ** Scans of the record list *)

Lemma find_id_nth : forall tid db i,
  find_id tid db = Some i ->
  exists t, nth_error db i = Some t /\ id t = tid /\
            first_with_id tid db = Some t.
Proof.
  intros tid db; induction db as [|a db IH]; intros i Hf; simpl in *.
  - discriminate.
  - destruct (id a =? tid) eqn:E.
    + injection Hf as <-. exists a. apply Z.eqb_eq in E. auto.
    + destruct (find_id tid db) as [j|] eqn:Ej; simpl in Hf; [|discriminate].
      injection Hf as <-. simpl. apply IH. reflexivity.
Qed.

Lemma find_id_none : forall tid db,
  find_id tid db = None <-> (forall t, In t db -> id t <> tid).
Proof.
  intros tid db; induction db as [|a db IH]; simpl.
  - split; [intros _ t []|reflexivity].
  - destruct (id a =? tid) eqn:E.
    + apply Z.eqb_eq in E. split; [discriminate|].
      intros H. exfalso. apply (H a); auto.
    + apply Z.eqb_neq in E.
      destruct (find_id tid db) as [j|]; simpl.
      * split; [discriminate|]. intros H.
        assert (Hn : @None nat = None) by reflexivity.
        exfalso. destruct IH as [_ IH].
        discriminate IH. intros t Ht. apply H. auto.
      * split; [|reflexivity]. intros _ t [<-|Ht]; [assumption|].
        apply IH; auto.
Qed.

Lemma first_with_id_none : forall tid db,
  first_with_id tid db = None <-> (forall t, In t db -> id t <> tid).
Proof.
  intros tid db; induction db as [|a db IH]; simpl.
  - split; [intros _ t []|reflexivity].
  - destruct (id a =? tid) eqn:E.
    + apply Z.eqb_eq in E. split; [discriminate|].
      intros H. exfalso. apply (H a); auto.
    + apply Z.eqb_neq in E. rewrite IH. split.
      * intros H t [<-|Ht]; auto.
      * intros H t Ht. apply H. auto.
Qed.

Lemma first_with_id_some : forall tid db t,
  first_with_id tid db = Some t -> In t db /\ id t = tid.
Proof.
  intros tid db; induction db as [|a db IH]; intros t H; simpl in *.
  - discriminate.
  - destruct (id a =? tid) eqn:E.
    + injection H as <-. apply Z.eqb_eq in E. auto.
    + destruct (IH _ H). auto.
Qed.

(** ** Recomputation *)

Lemma set_stats_description : forall a n t,
  same_description (set_stats a n t) t.
Proof. intros. repeat split. Qed.

Lemma restat_description : forall scores t, same_description (restat scores t) t.
Proof. intros [|x xs] t; apply set_stats_description. Qed.

Lemma same_description_refl : forall t, same_description t t.
Proof. intros. repeat split. Qed.

Lemma recompute_in_length : forall tid scores db,
  List.length (recompute_in tid scores db) = List.length db.
Proof.
  intros tid scores db; induction db as [|a db IH]; simpl; [reflexivity|].
  destruct (id a =? tid); simpl; congruence.
Qed.

(** The record at the position found is the one whose statistics are
    rewritten. *)
Lemma recompute_in_found : forall tid scores db i t,
  find_id tid db = Some i -> nth_error db i = Some t ->
  nth_error (recompute_in tid scores db) i = Some (restat scores t).
Proof.
  intros tid scores db; induction db as [|a db IH]; intros i t Hf Hn;
    simpl in *.
  - discriminate.
  - destruct (id a =? tid) eqn:E.
    + injection Hf as <-. simpl in *. congruence.
    + destruct (find_id tid db) as [j|] eqn:Ej; simpl in Hf; [|discriminate].
      injection Hf as <-. simpl in *. apply IH; auto.
Qed.

(** Every position keeps its record, up to the statistics; a record with
    another identifier is kept as it is. *)
Lemma recompute_in_frame : forall tid scores db i u,
  nth_error db i = Some u ->
  exists u', nth_error (recompute_in tid scores db) i = Some u' /\
             same_description u' u /\ (id u <> tid -> u' = u).
Proof.
  intros tid scores db; induction db as [|a db IH]; intros i u Hn.
  - destruct i; discriminate.
  - simpl. destruct (id a =? tid) eqn:E.
    + destruct i as [|i]; simpl in *.
      * injection Hn as <-. exists (restat scores a). split; [reflexivity|].
        split; [apply restat_description|].
        apply Z.eqb_eq in E. intros H; contradiction.
      * exists u. split; [assumption|]. split; [apply same_description_refl|auto].
    + destruct i as [|i]; simpl in *.
      * injection Hn as <-. exists a.
        split; [reflexivity|]. split; [apply same_description_refl|auto].
      * apply IH. assumption.
Qed.

Lemma recompute_in_ids : forall tid scores db,
  map id (recompute_in tid scores db) = map id db.
Proof.
  intros tid scores db; induction db as [|a db IH]; simpl; [reflexivity|].
  destruct (id a =? tid); simpl.
  - f_equal. destruct scores; reflexivity.
  - f_equal. assumption.
Qed.

Lemma find_id_recompute_in : forall tid scores db,
  find_id tid (recompute_in tid scores db) = find_id tid db.
Proof.
  intros tid scores db; induction db as [|a db IH]; simpl; [reflexivity|].
  destruct (id a =? tid) eqn:E; simpl.
  - replace (id (restat scores a)) with (id a) by (destruct scores; reflexivity).
    rewrite E. reflexivity.
  - rewrite E, IH. reflexivity.
Qed.

(** ** Sums and means *)

Lemma fold_left_add_total : forall xs acc,
  fold_left Z.add xs acc = acc + total xs.
Proof.
  induction xs as [|x xs IH]; intros acc; simpl; [lia|].
  rewrite IH. lia.
Qed.

Lemma sum_total : forall xs, sum xs = total xs.
Proof. intros. unfold sum. rewrite fold_left_add_total. lia. Qed.

Lemma scores_of_events : forall tid log,
  scores_of tid log = map r_cleanliness (events_for tid log).
Proof. reflexivity. Qed.

Lemma len_map : forall (A B : Type) (f : A -> B) (l : list A),
  len (map f l) = len l.
Proof. intros. unfold len. rewrite length_map. reflexivity. Qed.

(** What [restat] writes is the mean and the number of the scores. *)
Lemma restat_stats : forall scores t,
  rating_count (restat scores t) = len scores /\
  avg_cleanliness (restat scores t) = arithmetic_mean scores.
Proof.
  intros [|x xs] t; simpl; [split; reflexivity|].
  split; [reflexivity|]. rewrite sum_total. reflexivity.
Qed.

Lemma restat_id : forall scores t, id (restat scores t) = id t.
Proof. intros [|x xs] t; reflexivity. Qed.

(** ** Inversion of a successful submission *)

Lemma in_range_dec : forall c,
  negb ((1 <=? c) && (c <=? 5)) = false <-> 1 <= c <= 5.
Proof.
  intros c. rewrite negb_false_iff, andb_true_iff, !Z.leb_le. reflexivity.
Qed.

Lemma out_of_range_dec : forall c,
  negb ((1 <=? c) && (c <=? 5)) = true <-> (c < 1 \/ 5 < c).
Proof.
  intros c. rewrite negb_true_iff, andb_false_iff, !Z.leb_gt. reflexivity.
Qed.

Lemma add_rating_ok : forall tid rating s t s',
  add_rating tid rating s = (Ok t, s') ->
  exists i t0,
    1 <= cleanliness rating <= 5 /\
    find_id tid (toilets_db s) = Some i /\
    nth_error (toilets_db s) i = Some t0 /\ id t0 = tid /\
    t = restat (scores_of tid (ratings_db s ++ [new_event tid rating])) t0 /\
    s' = {| toilets_db :=
              recompute_in tid
                (scores_of tid (ratings_db s ++ [new_event tid rating]))
                (toilets_db s);
            ratings_db := ratings_db s ++ [new_event tid rating];
            next_toilet_id := next_toilet_id s |}.
Proof.
  intros tid rating s t s' H. unfold add_rating in H.
  destruct (negb _) eqn:Er; [discriminate|]. apply in_range_dec in Er.
  destruct (find_id tid (toilets_db s)) as [i|] eqn:Ef; [|discriminate].
  destruct (find_id_nth _ _ Ef) as (t0 & Hn & Hid & _).
  unfold recompute_rating_stats in H. simpl in H.
  rewrite (recompute_in_found _ _ _ Ef Hn) in H.
  injection H as <- <-. exists i, t0. repeat split; auto; lia.
Qed.

Lemma first_with_id_recompute_in : forall tid scores db,
  first_with_id tid (recompute_in tid scores db) =
  option_map (restat scores) (first_with_id tid db).
Proof.
  intros tid scores db; induction db as [|a db IH]; simpl; [reflexivity|].
  destruct (id a =? tid) eqn:E; simpl.
  - rewrite restat_id, E. reflexivity.
  - rewrite E. assumption.
Qed.

(** ** Rating aggregation *)

(** C1: recomputation leaves in the record with the given identifier the
    number of the Rating Events with that identifier and the arithmetic
    mean of their cleanliness values, nothing and 0 when there is no such
    event; and a successful submission appends its event, recomputes, and
    returns the record as it then stands in the store, so that the
    returned record carries the mean and the number of all the events of
    that record, the new one included. *)
Theorem submit_recomputes_mean :
  (forall tid s t,
      get_toilet tid (recompute_rating_stats tid s) = Ok t ->
      rating_count t = len (events_for tid (ratings_db s)) /\
      avg_cleanliness t =
        arithmetic_mean (map r_cleanliness (events_for tid (ratings_db s)))) /\
  (forall tid rating s t s',
      add_rating tid rating s = (Ok t, s') ->
      ratings_db s' = ratings_db s ++ [new_event tid rating] /\
      get_toilet tid s' = Ok t /\
      id t = tid /\
      rating_count t = len (events_for tid (ratings_db s')) /\
      avg_cleanliness t =
        arithmetic_mean (map r_cleanliness (events_for tid (ratings_db s')))).
Proof.
  split.
  - intros tid s t H. unfold get_toilet, recompute_rating_stats in H.
    simpl in H. rewrite first_with_id_recompute_in in H.
    destruct (first_with_id tid (toilets_db s)) as [t0|]; simpl in H;
      [|discriminate].
    injection H as <-.
    destruct (restat_stats (scores_of tid (ratings_db s)) t0) as [Hc Ha].
    rewrite Hc, Ha, scores_of_events, len_map. split; reflexivity.
  - intros tid rating s t s' H.
    destruct (add_rating_ok _ _ _ H) as (i & t0 & _ & Hf & Hn & Hid & -> & ->).
    simpl. split; [reflexivity|].
    destruct (find_id_nth _ _ Hf) as (t1 & Hn1 & _ & Hfirst).
    assert (t1 = t0) by congruence. subst t1.
    split.
    + unfold get_toilet. simpl.
      rewrite first_with_id_recompute_in, Hfirst. reflexivity.
    + split; [rewrite restat_id; assumption|].
      destruct (restat_stats
                  (scores_of tid (ratings_db s ++ [new_event tid rating])) t0)
        as [Hc Ha].
      rewrite Hc, Ha, scores_of_events, len_map. split; reflexivity.
Qed.

(** ** Rejections *)

(** C5: a submission whose cleanliness is below 1 or above 5 raises the
    400 error and returns the state it was given: the log gets no event
    and no record changes. *)
Theorem out_of_range_rejected : forall tid rating s,
  cleanliness rating < 1 \/ 5 < cleanliness rating ->
  add_rating tid rating s = (Raise InvalidInput, s).
Proof.
  intros tid rating s H. unfold add_rating.
  apply out_of_range_dec in H. rewrite H. reflexivity.
Qed.

(** C6: for an identifier that no record has, the lookup raises the 404
    error and so does a submission with a cleanliness in range, which
    returns the state it was given; for an identifier that some record
    has, the lookup returns a record of the store with that identifier. *)
Theorem lookup_by_id :
  (forall tid s,
      (forall t, In t (toilets_db s) -> id t <> tid) ->
      get_toilet tid s = Raise NotFound /\
      forall rating, 1 <= cleanliness rating <= 5 ->
                     add_rating tid rating s = (Raise NotFound, s)) /\
  (forall tid s,
      (exists t, In t (toilets_db s) /\ id t = tid) ->
      exists t, get_toilet tid s = Ok t /\ In t (toilets_db s) /\ id t = tid).
Proof.
  split.
  - intros tid s H. split.
    + unfold get_toilet. apply first_with_id_none in H. rewrite H. reflexivity.
    + intros rating Hr. unfold add_rating.
      apply in_range_dec in Hr. rewrite Hr.
      apply find_id_none in H. rewrite H. reflexivity.
  - intros tid s (t & Hin & Hid). unfold get_toilet.
    destruct (first_with_id tid (toilets_db s)) as [u|] eqn:E.
    + exists u. destruct (first_with_id_some _ _ E). auto.
    + exfalso. rewrite first_with_id_none in E. exact (E t Hin Hid).
Qed.

(** C10: when the cleanliness is out of range and no record has the
    identifier, the submission raises the 400 error, which is not the 404
    one that the lookup of the same identifier raises. *)
Theorem range_check_precedes_lookup : forall tid rating s,
  cleanliness rating < 1 \/ 5 < cleanliness rating ->
  (forall t, In t (toilets_db s) -> id t <> tid) ->
  add_rating tid rating s = (Raise InvalidInput, s) /\
  get_toilet tid s = Raise NotFound /\
  InvalidInput <> NotFound.
Proof.
  intros tid rating s Hr Hn. split; [|split].
  - unfold add_rating. apply out_of_range_dec in Hr. rewrite Hr. reflexivity.
  - unfold get_toilet. apply first_with_id_none in Hn. rewrite Hn. reflexivity.
  - discriminate.
Qed.

(** ** What a submission leaves alone *)

(** C8: a successful submission keeps the identifier counter and the
    number of records; at every position of the store the record keeps
    its identifier, name, coordinates, fee flag and amenity flags; and a
    record whose identifier is not the one submitted is kept whole. *)
Theorem submit_frame : forall tid rating s t s',
  add_rating tid rating s = (Ok t, s') ->
  next_toilet_id s' = next_toilet_id s /\
  List.length (toilets_db s') = List.length (toilets_db s) /\
  forall i u,
    nth_error (toilets_db s) i = Some u ->
    exists u', nth_error (toilets_db s') i = Some u' /\
               same_description u' u /\
               (id u <> tid -> u' = u).
Proof.
  intros tid rating s t s' H.
  destruct (add_rating_ok _ _ _ H) as (i & t0 & _ & _ & _ & _ & _ & ->).
  simpl. split; [reflexivity|]. split; [apply recompute_in_length|].
  intros j u Hu. apply recompute_in_frame. assumption.
Qed.

End StoreFacts.

Section ServiceFacts.

Context {F : Type} {PF : PyFloat F} {LM : Libm F}.

Implicit Types (s : State F) (t u : Toilet F) (db : list (Toilet F)).
Implicit Types (tid : Z) (log : list Rating).
Implicit Types (rq : Request F) (rqs : list (Request F)).

(** ** Counting identifiers *)

Lemma count_from_bounds : forall n a x,
  In x (count_from a n) -> a <= x < a + Z.of_nat n.
Proof.
  induction n as [|n IH]; intros a x H; simpl in H; [contradiction|].
  destruct H as [<-|H]; [lia|]. apply IH in H. lia.
Qed.

Lemma count_from_snoc : forall n a,
  count_from a (S n) = count_from a n ++ [a + Z.of_nat n].
Proof.
  induction n as [|n IH]; intros a.
  - simpl. f_equal. lia.
  - change (count_from a (S (S n))) with (a :: count_from (a + 1) (S n)).
    rewrite IH. simpl. do 3 f_equal. lia.
Qed.

Lemma count_from_NoDup : forall n a, NoDup (count_from a n).
Proof.
  induction n as [|n IH]; intros a; simpl; constructor; [|apply IH].
  intros H. apply count_from_bounds in H. lia.
Qed.

(** ** The event log seen from one record *)

Lemma events_for_app : forall tid log log',
  events_for tid (log ++ log') = events_for tid log ++ events_for tid log'.
Proof. intros. apply filter_app. Qed.

Lemma events_for_other : forall tid log rating k,
  k <> tid ->
  events_for k (log ++ [new_event tid rating]) = events_for k log.
Proof.
  intros tid log rating k Hk. rewrite events_for_app. simpl.
  destruct (Z.eqb_spec tid k); [congruence|]. apply app_nil_r.
Qed.

Lemma events_for_unused : forall log k,
  Forall (fun r => toilet_id r <> k) log -> events_for k log = [].
Proof.
  induction log as [|r log IH]; intros k H; [reflexivity|].
  inversion H as [|? ? Hr Hl]; subst. simpl.
  destruct (Z.eqb_spec (toilet_id r) k); [contradiction|]. apply IH, Hl.
Qed.

Lemma stats_agree_other : forall tid log rating t,
  id t <> tid ->
  stats_agree log t -> stats_agree (log ++ [new_event tid rating]) t.
Proof.
  intros tid log rating t Hid [Hc Ha]. unfold stats_agree.
  rewrite events_for_other by assumption. auto.
Qed.

(** ** Invariants of the state *)

(** Recomputing one record against the log that has just received an
    event for it restores the agreement of every record. *)
Lemma recompute_in_agree : forall tid rating log db,
  NoDup (map id db) ->
  Forall (stats_agree log) db ->
  Forall (stats_agree (log ++ [new_event tid rating]))
         (recompute_in tid (scores_of tid (log ++ [new_event tid rating])) db).
Proof.
  intros tid rating log db; induction db as [|a db IH]; intros Hnd Hall;
    simpl; [constructor|].
  inversion Hnd as [|? ? Hnot Hnd']; subst.
  inversion Hall as [|? ? Ha Hdb]; subst.
  destruct (Z.eqb_spec (id a) tid) as [E|E].
  - constructor.
    + unfold stats_agree. rewrite restat_id, E.
      destruct (restat_stats
                  (scores_of tid (log ++ [new_event tid rating])) a)
        as [Hc Hm].
      rewrite Hc, Hm, scores_of_events, len_map. split; reflexivity.
    + rewrite Forall_forall in Hdb |- *. intros u Hu.
      apply stats_agree_other; [|apply Hdb, Hu].
      intros Eu. apply Hnot. rewrite E, <- Eu. apply in_map, Hu.
  - constructor.
    + apply stats_agree_other; assumption.
    + apply IH; assumption.
Qed.

Lemma well_formed_init : well_formed (@init F).
Proof. repeat split. constructor. Qed.

Lemma consistent_init : consistent (@init F).
Proof. constructor. Qed.

Lemma well_formed_NoDup : forall s, well_formed s -> NoDup (map id (toilets_db s)).
Proof. intros s (Hids & _). rewrite Hids. apply count_from_NoDup. Qed.

Lemma create_toilet_well_formed : forall toilet s,
  well_formed s -> well_formed (snd (create_toilet toilet s)).
Proof.
  intros toilet s (Hids & Hnext & Hlog).
  unfold well_formed, create_toilet, len in *.
  cbn [snd toilets_db ratings_db next_toilet_id].
  rewrite map_app, length_app, Hids. cbn [map id List.length].
  rewrite Nat.add_1_r, count_from_snoc, <- Hnext.
  split; [reflexivity|]. split; [lia|].
  eapply Forall_impl; [|exact Hlog]. cbv beta. intros r Hr. lia.
Qed.

Lemma create_toilet_consistent : forall toilet s,
  well_formed s -> consistent s -> consistent (snd (create_toilet toilet s)).
Proof.
  intros toilet s (_ & _ & Hlog) Hc. unfold consistent, create_toilet in *.
  cbn [snd toilets_db ratings_db].
  apply Forall_app. split; [assumption|]. constructor; [|constructor].
  unfold stats_agree. cbn [id rating_count avg_cleanliness].
  rewrite events_for_unused; [split; reflexivity|].
  eapply Forall_impl; [|exact Hlog]. cbv beta. intros r Hr. lia.
Qed.

Lemma add_rating_well_formed : forall tid rating s,
  well_formed s -> well_formed (snd (add_rating tid rating s)).
Proof.
  intros tid rating s Hwf.
  destruct (add_rating tid rating s) as [[t|e] s'] eqn:E; simpl.
  - destruct (add_rating_ok _ _ _ E) as (i & t0 & _ & _ & Hn & Hid & _ & ->).
    destruct Hwf as (Hids & Hnext & Hlog). unfold well_formed. simpl.
    rewrite recompute_in_ids, recompute_in_length. unfold len in *.
    rewrite recompute_in_length.
    split; [assumption|]. split; [assumption|].
    apply Forall_app. split; [assumption|]. constructor; [|constructor].
    simpl. apply nth_error_In in Hn. apply (in_map id) in Hn.
    rewrite Hids, Hid in Hn. apply count_from_bounds in Hn. lia.
  - unfold add_rating in E.
    destruct (negb _); [injection E as _ <-; assumption|].
    destruct (find_id tid (toilets_db s)) as [i|];
      [|injection E as _ <-; assumption].
    destruct (nth_error _ i); [discriminate|injection E as _ <-; assumption].
Qed.

Lemma add_rating_consistent : forall tid rating s,
  well_formed s -> consistent s -> consistent (snd (add_rating tid rating s)).
Proof.
  intros tid rating s Hwf Hc.
  destruct (add_rating tid rating s) as [[t|e] s'] eqn:E; simpl.
  - destruct (add_rating_ok _ _ _ E) as (i & t0 & _ & _ & _ & _ & _ & ->).
    unfold consistent. simpl.
    apply recompute_in_agree; [apply well_formed_NoDup|]; assumption.
  - unfold add_rating in E.
    destruct (negb _); [injection E as _ <-; assumption|].
    destruct (find_id tid (toilets_db s)) as [i|];
      [|injection E as _ <-; assumption].
    destruct (nth_error _ i); [discriminate|injection E as _ <-; assumption].
Qed.

Lemma handle_invariant : forall rq s,
  well_formed s /\ consistent s ->
  well_formed (snd (handle rq s)) /\ consistent (snd (handle rq s)).
Proof.
  intros rq s [Hwf Hc]. destruct rq as [|toilet|lat lng r|tid|tid rating];
    simpl; auto.
  - split; [apply (create_toilet_well_formed toilet Hwf)
           |apply (create_toilet_consistent toilet Hwf Hc)].
  - destruct (list_toilets lat lng r s); auto.
  - pose proof (add_rating_well_formed tid rating Hwf) as H1.
    pose proof (add_rating_consistent tid rating Hwf Hc) as H2.
    destruct (add_rating tid rating s). auto.
Qed.

Lemma serve_invariant : forall rqs s,
  well_formed s /\ consistent s ->
  well_formed (snd (serve rqs s)) /\ consistent (snd (serve rqs s)).
Proof.
  induction rqs as [|rq rqs IH]; intros s H; simpl; [assumption|].
  pose proof (handle_invariant rq H) as H1.
  destruct (handle rq s) as [r s1]. simpl in H1.
  specialize (IH s1 H1). destruct (serve rqs s1). assumption.
Qed.

(** C2: after any run of requests served from the initial state, whatever
    the requests are and whether they succeed or fail, every record in
    the store has as its rating count the number of events in the log
    with its identifier, and as its average the arithmetic mean of their
    cleanliness values, nothing when there is none. *)
Theorem stats_always_consistent : forall rqs,
  consistent (snd (serve rqs init)).
Proof.
  intros rqs. apply serve_invariant. split.
  - apply well_formed_init.
  - apply consistent_init.
Qed.

(** ** Identifier allocation *)

Lemma add_rating_next : forall tid rating s,
  next_toilet_id (snd (add_rating tid rating s)) = next_toilet_id s.
Proof.
  intros tid rating s. unfold add_rating.
  destruct (negb _); [reflexivity|].
  destruct (find_id tid (toilets_db s)) as [i|]; [|reflexivity].
  destruct (nth_error _ i); reflexivity.
Qed.

Lemma serve_created : forall rqs s,
  let made := created rqs (fst (serve rqs s)) in
  map id made = count_from (next_toilet_id s) (List.length made) /\
  List.length made = List.length (filter is_create rqs).
Proof.
  induction rqs as [|rq rqs IH]; intros s; [split; reflexivity|].
  cbn [serve].
  destruct (handle rq s) as [r s1] eqn:Eh.
  specialize (IH s1). destruct (serve rqs s1) as [rs s2].
  cbn [fst] in *. cbv zeta in IH. destruct IH as [IHids IHlen].
  destruct rq as [|toilet|lat lng rad|tid|tid rating]; cbn [handle] in Eh.
  - injection Eh as <- <-. exact (conj IHids IHlen).
  - unfold create_toilet in Eh. injection Eh as <- <-.
    cbn [created filter is_create map List.length count_from id].
    cbn [next_toilet_id] in IHids. rewrite IHids, IHlen.
    split; reflexivity.
  - destruct (list_toilets lat lng rad s); injection Eh as <- <-;
      exact (conj IHids IHlen).
  - injection Eh as <- <-.
    destruct (get_toilet tid s); exact (conj IHids IHlen).
  - pose proof (add_rating_next tid rating s) as Hn.
    destruct (add_rating tid rating s) as [res s']. injection Eh as <- <-.
    cbn [snd] in Hn. rewrite Hn in IHids.
    destruct res; exact (conj IHids IHlen).
Qed.

(** C3: a create request returns the record it appends at the end of the
    store, with the identifier that was next, no average and a zero
    count, and moves the counter on by one; and in any run of requests
    served from the initial state, every create request returns a record
    and the identifiers of these records are 1, 2, 3, ... in the order of
    the requests, so no two of them are equal. *)
Theorem create_ids_sequential :
  (forall toilet s,
      let t := fst (create_toilet toilet s) in
      let s' := snd (create_toilet toilet s) in
      id t = next_toilet_id s /\
      avg_cleanliness t = None /\
      rating_count t = 0 /\
      toilets_db s' = toilets_db s ++ [t] /\
      ratings_db s' = ratings_db s /\
      next_toilet_id s' = next_toilet_id s + 1) /\
  (forall rqs,
      let made := created rqs (fst (serve rqs init)) in
      map id made = count_from 1 (List.length made) /\
      NoDup (map id made) /\
      List.length made = List.length (filter is_create rqs)).
Proof.
  split.
  - intros toilet s. repeat split.
  - intros rqs. destruct (serve_created rqs init) as [Hids Hlen].
    cbv zeta. split; [exact Hids|]. split; [|exact Hlen].
    cbv zeta in Hids. rewrite Hids. apply count_from_NoDup.
Qed.

(** ** Names *)

Lemma recompute_in_names : forall tid scores db,
  map name (recompute_in tid scores db) = map name db.
Proof.
  intros tid scores db; induction db as [|a db IH]; simpl; [reflexivity|].
  destruct (id a =? tid); simpl.
  - f_equal. destruct scores; reflexivity.
  - f_equal. assumption.
Qed.

Lemma add_rating_names : forall tid rating s,
  map name (toilets_db (snd (add_rating tid rating s))) =
  map name (toilets_db s).
Proof.
  intros tid rating s.
  destruct (add_rating tid rating s) as [[t1|e] s'] eqn:E.
  - destruct (add_rating_ok _ _ _ E) as (i0 & t0 & _ & _ & _ & _ & _ & ->).
    cbn [snd toilets_db]. apply recompute_in_names.
  - unfold add_rating in E.
    destruct (negb _); [injection E as _ <-; reflexivity|].
    destruct (find_id tid (toilets_db s)) as [i|];
      [|injection E as _ <-; reflexivity].
    destruct (nth_error _ i); [discriminate|injection E as _ <-; reflexivity].
Qed.

Lemma handle_names : forall rq s,
  map name (toilets_db (snd (handle rq s))) =
  map name (toilets_db s) ++ map tc_name (create_requests [rq]).
Proof.
  intros [|toilet|lat lng rad|tid|tid rating] s;
    cbn [handle create_requests map]; rewrite ?app_nil_r.
  - reflexivity.
  - cbn [create_toilet snd toilets_db]. rewrite map_app. reflexivity.
  - destruct (list_toilets lat lng rad s); reflexivity.
  - reflexivity.
  - pose proof (add_rating_names tid rating s) as H.
    destruct (add_rating tid rating s) as [res s']. exact H.
Qed.

Lemma create_requests_cons : forall rq rqs,
  create_requests (rq :: rqs) = create_requests [rq] ++ create_requests rqs.
Proof. intros [| | | |] rqs; reflexivity. Qed.

Lemma serve_names : forall rqs s,
  map name (toilets_db (snd (serve rqs s))) =
  map name (toilets_db s) ++ map tc_name (create_requests rqs).
Proof.
  induction rqs as [|rq rqs IH]; intros s.
  - cbn [serve snd create_requests map]. rewrite app_nil_r. reflexivity.
  - cbn [serve]. pose proof (handle_names rq s) as Hh.
    destruct (handle rq s) as [r s1]. specialize (IH s1).
    destruct (serve rqs s1) as [rs s2]. cbn [snd] in *.
    rewrite (create_requests_cons rq rqs), map_app, app_assoc, IH, Hh.
    reflexivity.
Qed.

Lemma count_from_nth : forall n a i k,
  nth_error (count_from a n) i = Some k -> k = a + Z.of_nat i.
Proof.
  induction n as [|n IH]; intros a i k H; [destruct i; discriminate|].
  destruct i as [|i]; cbn [count_from nth_error] in H.
  - injection H as <-. lia.
  - apply IH in H. lia.
Qed.

(** C9 (as amended): the name of a record is the name given in the create
    request that made it, whatever string that is.  The create operation
    returns a record with the name it is given.  Whatever the state a
    run of requests starts from, the names in the store after it are,
    in order, the names that were there followed by the names of the
    create requests of the run: no request changes a name, and each
    create request adds its own.  So after a run from the initial state
    the record at position [i] of the store has the name of the create
    request at position [i] among those of the run, and the identifier
    [i + 1] that this request was given. *)
Theorem names_are_as_submitted :
  (forall toilet s, name (fst (create_toilet toilet s)) = tc_name toilet) /\
  (forall rqs s,
      map name (toilets_db (snd (serve rqs s))) =
      map name (toilets_db s) ++ map tc_name (create_requests rqs)) /\
  (forall rqs i t,
      nth_error (toilets_db (snd (serve rqs init))) i = Some t ->
      exists toilet,
        nth_error (create_requests rqs) i = Some toilet /\
        name t = tc_name toilet /\
        id t = Z.of_nat i + 1).
Proof.
  split; [reflexivity|]. split; [apply serve_names|].
  intros rqs i t Hn.
  pose proof (serve_names rqs init) as Hnames.
  cbn [init toilets_db map app] in Hnames.
  pose proof (map_nth_error name _ _ Hn) as Hi. rewrite Hnames in Hi.
  rewrite nth_error_map in Hi.
  destruct (nth_error (create_requests rqs) i) as [toilet|]; [|discriminate].
  exists toilet. split; [reflexivity|].
  split; [injection Hi as Hi; symmetry; exact Hi|].
  destruct (serve_invariant rqs (conj well_formed_init consistent_init))
    as [(Hids & _) _].
  pose proof (map_nth_error id _ _ Hn) as Hid. rewrite Hids in Hid.
  apply count_from_nth in Hid. lia.
Qed.

(** ** The proximity scan *)

Lemma scan_defined : forall lat lng radius_km db results,
  Forall (fun t => exists d,
            haversine_km lat lng (latitude t) (longitude t) = Ok d) db ->
  scan lat lng radius_km db results =
  Ok (results ++ filter (within lat lng radius_km) db).
Proof.
  intros lat lng radius_km db; induction db as [|t db IH];
    intros results Hdef; cbn [scan filter].
  - rewrite app_nil_r. reflexivity.
  - inversion Hdef as [|? ? [d Hd] Hrest]; subst.
    unfold within at 1. rewrite Hd. cbn [bind].
    destruct (fle d radius_km); rewrite (IH _ Hrest); [|reflexivity].
    rewrite <- app_assoc. reflexivity.
Qed.



End ServiceFacts.

(** * The distance in exact arithmetic *)

Module ExactFacts.

Import Exact.
Local Open Scope R_scope.

Lemma Rleb_le : forall x y, Rleb x y = true <-> x <= y.
Proof.
  intros x y. unfold Rleb. destruct (Rle_dec x y); split; intros H;
    (assumption || reflexivity || discriminate || contradiction).
Qed.

Lemma square_2 : forall x, powerRZ x 2 = x * x.
Proof. intros. simpl. ring. Qed.

(** The haversine term is even in the angular difference. *)
Lemma hav_opp : forall d e : R,
  e = - d ->
  powerRZ (Rtrigo_def.sin (e * (PI / 180) / 2)) 2 =
  powerRZ (Rtrigo_def.sin (d * (PI / 180) / 2)) 2.
Proof.
  intros d e ->.
  replace (- d * (PI / 180) / 2) with (- (d * (PI / 180) / 2)) by lra.
  rewrite sin_neg, !square_2. ring.
Qed.

Lemma hav_zero : powerRZ (Rtrigo_def.sin (0 * (PI / 180) / 2)) 2 = 0.
Proof.
  replace (0 * (PI / 180) / 2) with 0 by lra.
  rewrite sin_0, square_2. ring.
Qed.

Lemma Ratan2_0_1 : Ratan2 0 1 = 0.
Proof.
  unfold Ratan2. destruct (Rlt_dec 0 1) as [_|H]; [|exfalso; lra].
  replace (0 / 1) with 0 by lra. apply atan_0.
Qed.

Lemma sin_square_bounds : forall x,
  0 <= Rtrigo_def.sin x * Rtrigo_def.sin x <= 1.
Proof.
  intros x. pose proof (SIN_bound x). nra.
Qed.

Lemma cos_square_bounds : forall x,
  0 <= Rtrigo_def.cos x * Rtrigo_def.cos x <= 1.
Proof.
  intros x. pose proof (COS_bound x). nra.
Qed.

(** [cos (v - u) * cos (v + u) = cos v ^ 2 - sin u ^ 2] *)
Lemma cos_product : forall u v,
  Rtrigo_def.cos (v - u) * Rtrigo_def.cos (v + u) =
  Rtrigo_def.cos v * Rtrigo_def.cos v - Rtrigo_def.sin u * Rtrigo_def.sin u.
Proof.
  intros u v. rewrite cos_minus, cos_plus.
  pose proof (sin2_cos2 u) as Hu. pose proof (sin2_cos2 v) as Hv.
  unfold Rsqr in Hu, Hv. nra.
Qed.

(** The quantity under the square roots lies between 0 and 1. *)
Lemma central_bounds : forall lat1 lat2 dlon : R,
  let a :=
    powerRZ (Rtrigo_def.sin ((lat2 - lat1) * (PI / 180) / 2)) 2 +
    Rtrigo_def.cos (lat1 * (PI / 180)) * Rtrigo_def.cos (lat2 * (PI / 180)) *
    powerRZ (Rtrigo_def.sin (dlon * (PI / 180) / 2)) 2 in
  0 <= a <= 1.
Proof.
  intros lat1 lat2 dlon. cbv zeta. rewrite !square_2.
  set (u := (lat2 - lat1) * (PI / 180) / 2).
  set (v := (lat2 + lat1) * (PI / 180) / 2).
  replace (lat1 * (PI / 180)) with (v - u) by (unfold u, v; lra).
  replace (lat2 * (PI / 180)) with (v + u) by (unfold u, v; lra).
  rewrite cos_product.
  pose proof (sin_square_bounds u) as Hu.
  pose proof (cos_square_bounds v) as Hv.
  pose proof (sin_square_bounds (dlon * (PI / 180) / 2)) as Ht.
  nra.
Qed.

Lemma Rsqrt_checked_ok : forall x, 0 <= x -> Rsqrt_checked x = Ok (R_sqrt.sqrt x).
Proof.
  intros x Hx. unfold Rsqrt_checked.
  destruct (Rle_dec 0 x); [reflexivity|contradiction].
Qed.

(** In exact arithmetic the distance is always defined. *)
Lemma haversine_km_exact : forall lat1 lon1 lat2 lon2 : R,
  let a :=
    powerRZ (Rtrigo_def.sin ((lat2 - lat1) * (PI / 180) / 2)) 2 +
    Rtrigo_def.cos (lat1 * (PI / 180)) * Rtrigo_def.cos (lat2 * (PI / 180)) *
    powerRZ (Rtrigo_def.sin ((lon2 - lon1) * (PI / 180) / 2)) 2 in
  haversine_km lat1 lon1 lat2 lon2 =
  Ok (6371 * (2 * Ratan2 (R_sqrt.sqrt a) (R_sqrt.sqrt (1 - a)))).
Proof.
  intros lat1 lon1 lat2 lon2 a.
  pose proof (central_bounds lat1 lat2 (lon2 - lon1)) as Ha.
  cbv zeta in Ha. fold a in Ha.
  unfold haversine_km, radians.
  cbn [of_int pi fadd fsub fmul fdiv sin cos sqrt atan2 fpow
       real real_libm bind Rpow_checked Z.ltb Z.compare].
  fold a.
  rewrite (Rsqrt_checked_ok (x := a)) by lra.
  cbn [bind].
  rewrite (Rsqrt_checked_ok (x := 1 - a)) by lra.
  reflexivity.
Qed.

Lemma haversine_km_swap : forall lat1 lon1 lat2 lon2 : R,
  haversine_km lat1 lon1 lat2 lon2 = haversine_km lat2 lon2 lat1 lon1.
Proof.
  intros lat1 lon1 lat2 lon2. rewrite !haversine_km_exact. cbv zeta.
  rewrite (@hav_opp (lat1 - lat2) (lat2 - lat1)) by lra.
  rewrite (@hav_opp (lon1 - lon2) (lon2 - lon1)) by lra.
  rewrite (Rmult_comm (Rtrigo_def.cos (lat1 * (PI / 180)))).
  reflexivity.
Qed.

Lemma haversine_km_same : forall lat lon : R,
  haversine_km lat lon lat lon = Ok 0.
Proof.
  intros lat lon. rewrite haversine_km_exact. cbv zeta.
  replace (lat - lat) with 0 by lra.
  replace (lon - lon) with 0 by lra.
  rewrite hav_zero.
  replace (0 + _ * 0) with 0 by lra.
  replace (1 - 0) with 1 by lra.
  rewrite sqrt_0, sqrt_1, Ratan2_0_1. f_equal. lra.
Qed.

Lemma Ratan2_nonneg : forall y x, 0 <= y -> 0 <= x -> 0 <= Ratan2 y x.
Proof.
  intros y x Hy Hx. unfold Ratan2.
  destruct (Rlt_dec 0 x) as [Hpos|Hnpos].
  - assert (Hq : 0 <= y / x).
    { unfold Rdiv. apply Rmult_le_pos; [assumption|].
      left. apply Rinv_0_lt_compat. assumption. }
    destruct Hq as [Hq| <-]; [|rewrite atan_0; lra].
    rewrite <- atan_0. left. apply atan_increasing. assumption.
  - destruct (Rlt_dec x 0); [lra|].
    destruct (Rlt_dec 0 y); [pose proof PI_RGT_0; lra|].
    destruct (Rlt_dec y 0); lra.
Qed.

Lemma haversine_km_nonneg : forall lat1 lon1 lat2 lon2 d : R,
  haversine_km lat1 lon1 lat2 lon2 = Ok d -> 0 <= d.
Proof.
  intros lat1 lon1 lat2 lon2 d. rewrite haversine_km_exact. cbv zeta.
  intros H. injection H as <-.
  apply Rmult_le_pos; [lra|]. apply Rmult_le_pos; [lra|].
  apply Ratan2_nonneg; apply sqrt_pos.
Qed.

End ExactFacts.


(** * The code's distance is the great-circle distance *)

Module GreatCircleFacts.

Import Exact ExactFacts.
Local Open Scope R_scope.

(** The angle whose sine and cosine are the two square roots. *)
Lemma Ratan2_sqrt : forall a : R,
  0 <= a <= 1 ->
  0 <= Ratan2 (R_sqrt.sqrt a) (R_sqrt.sqrt (1 - a)) <= PI / 2 /\
  Rtrigo_def.sin (Ratan2 (R_sqrt.sqrt a) (R_sqrt.sqrt (1 - a))) = R_sqrt.sqrt a.
Proof.
  intros a Ha. split.
  - split.
    + apply Ratan2_nonneg; apply sqrt_pos.
    + unfold Ratan2. pose proof PI_RGT_0 as Hpi.
      pose proof (sqrt_pos a) as Hy. pose proof (sqrt_pos (1 - a)) as Hx.
      destruct (Rlt_dec 0 (R_sqrt.sqrt (1 - a))).
      * left. apply atan_bound.
      * destruct (Rlt_dec (R_sqrt.sqrt (1 - a)) 0); [lra|].
        destruct (Rlt_dec 0 (R_sqrt.sqrt a)); [lra|].
        destruct (Rlt_dec (R_sqrt.sqrt a) 0); lra.
  - unfold Ratan2. pose proof (sqrt_pos (1 - a)) as Hx.
    destruct (Rlt_dec 0 (R_sqrt.sqrt (1 - a))) as [Hpos|Hnpos].
    + rewrite sin_atan.
      assert (H1a : 0 < 1 - a).
      { destruct (Rle_lt_dec (1 - a) 0) as [Hle|Hlt]; [|exact Hlt].
        exfalso. assert (1 - a = 0) by lra.
        replace (1 - a) with 0 in Hpos by lra. rewrite sqrt_0 in Hpos. lra. }
      set (y := R_sqrt.sqrt a) in *. set (x := R_sqrt.sqrt (1 - a)) in *.
      assert (Hyy : y * y = a) by (apply sqrt_sqrt; lra).
      assert (Hxx : x * x = 1 - a) by (apply sqrt_sqrt; lra).
      assert (Hsq : 1 + (y / x)² = / (x * x)).
      { unfold Rsqr.
        transitivity ((x * x + y * y) / (x * x)); [field; lra|].
        rewrite Hyy, Hxx. replace (1 - a + a) with 1 by ring.
        unfold Rdiv. ring. }
      rewrite Hsq. rewrite sqrt_inv.
      replace (R_sqrt.sqrt (x * x)) with x
        by (symmetry; apply sqrt_square; lra).
      field. lra.
    + assert (Hx0 : R_sqrt.sqrt (1 - a) = 0) by lra.
      apply sqrt_eq_0 in Hx0; [|lra].
      assert (Ha1 : a = 1) by lra. subst a.
      rewrite sqrt_1.
      replace (1 - 1) with 0 by lra. rewrite sqrt_0.
      destruct (Rlt_dec 0 0); [lra|]. destruct (Rlt_dec 0 1); [|lra].
      apply sin_PI2.
Qed.

(** Twice that angle is the arc cosine of [1 - 2 a]. *)
Lemma twice_Ratan2_sqrt : forall a : R,
  0 <= a <= 1 ->
  2 * Ratan2 (R_sqrt.sqrt a) (R_sqrt.sqrt (1 - a)) = acos (1 - 2 * a).
Proof.
  intros a Ha. destruct (Ratan2_sqrt Ha) as [Hrange Hsin].
  set (alpha := Ratan2 (R_sqrt.sqrt a) (R_sqrt.sqrt (1 - a))) in *.
  assert (Hcos : Rtrigo_def.cos (2 * alpha) = 1 - 2 * a).
  { rewrite cos_2a_sin, Hsin, Rmult_assoc, sqrt_sqrt by lra. reflexivity. }
  rewrite <- Hcos. symmetry. apply acos_cos. lra.
Qed.

(** The cosine of the central angle, from the quantity [a] of the code. *)
Lemma dot_unit_vectors : forall lat1 lon1 lat2 lon2 : R,
  dot (unit_vector lat1 lon1) (unit_vector lat2 lon2) =
  1 - 2 * (powerRZ (Rtrigo_def.sin ((lat2 - lat1) * (PI / 180) / 2)) 2 +
           Rtrigo_def.cos (lat1 * (PI / 180)) *
           Rtrigo_def.cos (lat2 * (PI / 180)) *
           powerRZ (Rtrigo_def.sin ((lon2 - lon1) * (PI / 180) / 2)) 2).
Proof.
  intros lat1 lon1 lat2 lon2. unfold dot, unit_vector, to_radians.
  rewrite !square_2.
  set (p1 := lat1 * (PI / 180)). set (p2 := lat2 * (PI / 180)).
  set (l1 := lon1 * (PI / 180)). set (l2 := lon2 * (PI / 180)).
  replace (lat1 * PI / 180) with p1 by (unfold p1; lra).
  replace (lat2 * PI / 180) with p2 by (unfold p2; lra).
  replace (lon1 * PI / 180) with l1 by (unfold l1; lra).
  replace (lon2 * PI / 180) with l2 by (unfold l2; lra).
  replace ((lat2 - lat1) * (PI / 180) / 2) with ((p2 - p1) / 2)
    by (unfold p1, p2; lra).
  replace ((lon2 - lon1) * (PI / 180) / 2) with ((l2 - l1) / 2)
    by (unfold l1, l2; lra).
  pose proof (cos_2a_sin ((p2 - p1) / 2)) as Hp.
  pose proof (cos_2a_sin ((l2 - l1) / 2)) as Hl.
  replace (2 * ((p2 - p1) / 2)) with (p2 - p1) in Hp by lra.
  replace (2 * ((l2 - l1) / 2)) with (l2 - l1) in Hl by lra.
  rewrite cos_minus in Hp, Hl.
  set (sp := Rtrigo_def.sin ((p2 - p1) / 2)) in *.
  set (sl := Rtrigo_def.sin ((l2 - l1) / 2)) in *.
  replace (Rtrigo_def.cos p1 * Rtrigo_def.cos l1 *
           (Rtrigo_def.cos p2 * Rtrigo_def.cos l2) +
           Rtrigo_def.cos p1 * Rtrigo_def.sin l1 *
           (Rtrigo_def.cos p2 * Rtrigo_def.sin l2) +
           Rtrigo_def.sin p1 * Rtrigo_def.sin p2)
    with (Rtrigo_def.cos p1 * Rtrigo_def.cos p2 *
          (Rtrigo_def.cos l2 * Rtrigo_def.cos l1 +
           Rtrigo_def.sin l2 * Rtrigo_def.sin l1) +
          Rtrigo_def.sin p1 * Rtrigo_def.sin p2) by ring.
  rewrite Hl. lra.
Qed.

(** The distance that the code computes is the great-circle distance. *)
Lemma haversine_km_great_circle : forall lat1 lon1 lat2 lon2 : R,
  haversine_km lat1 lon1 lat2 lon2 =
  Ok (great_circle_km lat1 lon1 lat2 lon2).
Proof.
  intros lat1 lon1 lat2 lon2. rewrite haversine_km_exact. cbv zeta.
  unfold great_circle_km, central_angle. rewrite dot_unit_vectors.
  rewrite twice_Ratan2_sqrt; [reflexivity|].
  apply (central_bounds lat1 lat2 (lon2 - lon1)).
Qed.

End GreatCircleFacts.

(** ** Proximity query *)


(** * The distance in binary64 *)

Module Binary64Facts.

Import Binary64.

(** The sign of the operands goes through rounding unchanged. *)

Lemma binary_round_aux_negb : forall s m e l,
  binary_round_aux prec emax (negb s) m e l =
  SFopp (binary_round_aux prec emax s m e l).
Proof.
  intros s m e l. unfold binary_round_aux.
  destruct (shr_fexp prec emax m e l) as [mrs e1].
  destruct (shr_fexp prec emax _ e1 loc_Exact) as [mrs2 e2].
  destruct (shr_m mrs2); [reflexivity| |reflexivity].
  destruct (Z.leb e2 _); reflexivity.
Qed.

Lemma binary_round_negb : forall s m e,
  binary_round prec emax (negb s) m e = SFopp (binary_round prec emax s m e).
Proof.
  intros s m e. unfold binary_round.
  destruct (shl_align m e _) as [mz ez]. apply binary_round_aux_negb.
Qed.

Lemma binary_normalize_opp : forall m e,
  m <> 0 ->
  binary_normalize prec emax (- m) e false =
  SFopp (binary_normalize prec emax m e false).
Proof.
  intros [|p|p] e Hm; [contradiction| |]; simpl.
  - apply (binary_round_negb false).
  - apply (binary_round_negb true).
Qed.

(** [y - x] is the opposite of [x - y], or the same zero or NaN. *)
Lemma SFsub_swap : forall x y,
  SF64sub y x = SFopp (SF64sub x y) \/ SF64sub y x = SF64sub x y.
Proof.
  intros [sx|sx| |sx mx ex] [sy|sy| |sy my ey];
    try (destruct sx, sy; simpl; auto; fail);
    try (destruct sx; simpl; auto; fail);
    try (destruct sy; simpl; auto; fail);
    try (simpl; auto; fail).
  unfold SF64sub, SFsub. rewrite (Z.min_comm ey ex).
  set (a := cond_Zopp sx _). set (b := cond_Zopp sy _).
  destruct (Z.eq_dec (a - b) 0) as [E|E].
  - right. replace (b - a) with 0 by lia. rewrite E. reflexivity.
  - left. replace (b - a) with (- (a - b)) by lia.
    apply binary_normalize_opp. assumption.
Qed.

Lemma SFmul_opp_l : forall x y,
  SF64mul (SFopp x) y = SFopp (SF64mul x y).
Proof.
  intros [sx|sx| |sx mx ex] [sy|sy| |sy my ey]; simpl;
    try reflexivity; try (destruct sx, sy; reflexivity).
  rewrite <- binary_round_aux_negb. destruct sx, sy; reflexivity.
Qed.

Lemma SFdiv_opp_l : forall x y,
  SF64div (SFopp x) y = SFopp (SF64div x y).
Proof.
  intros [sx|sx| |sx mx ex] [sy|sy| |sy my ey]; simpl;
    try reflexivity; try (destruct sx, sy; reflexivity).
  destruct (SFdiv_core_binary prec emax (Z.pos mx) ex (Z.pos my) ey)
    as [[mz ez] lz].
  rewrite <- binary_round_aux_negb. destruct sx, sy; reflexivity.
Qed.

Lemma SFmul_comm : forall x y, SF64mul x y = SF64mul y x.
Proof.
  intros [sx|sx| |sx mx ex] [sy|sy| |sy my ey]; simpl;
    try reflexivity; try (destruct sx, sy; reflexivity).
  rewrite (Pos.mul_comm my mx), (Z.add_comm ey ex), (xorb_comm sy sx).
  reflexivity.
Qed.

(** The same on the primitive floats. *)

Lemma sub_swap : forall x y : float,
  (y - x = - (x - y) \/ y - x = x - y)%float.
Proof.
  intros x y.
  destruct (SFsub_swap (Prim2SF x) (Prim2SF y)) as [H|H]; [left|right];
    apply Prim2SF_inj; rewrite ?opp_spec, !sub_spec; exact H.
Qed.

Lemma mul_opp_l : forall x y : float, (- x * y = - (x * y))%float.
Proof.
  intros x y. apply Prim2SF_inj.
  rewrite opp_spec, !mul_spec, opp_spec. apply SFmul_opp_l.
Qed.

Lemma div_opp_l : forall x y : float, (- x / y = - (x / y))%float.
Proof.
  intros x y. apply Prim2SF_inj.
  rewrite opp_spec, !div_spec, opp_spec. apply SFdiv_opp_l.
Qed.

Lemma mul_comm : forall x y : float, (x * y = y * x)%float.
Proof.
  intros x y. apply Prim2SF_inj. rewrite !mul_spec. apply SFmul_comm.
Qed.

Lemma radians_opp : forall x : float, radians (- x)%float = (- radians x)%float.
Proof. intros x. unfold radians. cbn [fmul binary64]. apply mul_opp_l. Qed.

(** With a sine that is odd and a square that is even, as those of the C
    library are, the distance from B to A is computed through the very
    same floats as the distance from A to B. *)
Section Symmetry.

Context {LM : Libm float}.

Hypothesis sin_odd : forall x y : float,
  sin x = Ok y -> sin (- x)%float = Ok (- y)%float.
Hypothesis square_even : forall x : float, fpow (- x)%float 2 = fpow x 2.

Lemma hav_swap_binary64 : forall d d' v p : float,
  d' = (- d)%float \/ d' = d ->
  sin (fdiv (radians d) (of_int 2)) = Ok v ->
  fpow v 2 = Ok p ->
  exists v', sin (fdiv (radians d') (of_int 2)) = Ok v' /\ fpow v' 2 = Ok p.
Proof.
  intros d d' v p [->| ->] Hs Hp; [|exists v; auto].
  exists (- v)%float. rewrite radians_opp. cbn [fdiv of_int binary64] in *.
  rewrite div_opp_l, square_even. split; [apply sin_odd|]; assumption.
Qed.

Theorem haversine_km_swap_binary64 : forall lat1 lon1 lat2 lon2 d : float,
  haversine_km lat1 lon1 lat2 lon2 = Ok d ->
  haversine_km lat2 lon2 lat1 lon1 = Ok d.
Proof.
  intros lat1 lon1 lat2 lon2 d H. unfold haversine_km in *.
  destruct (sin (fdiv (radians (fsub lat2 lat1)) (of_int 2))) as [v1|] eqn:Es1;
    cbn [bind] in H; [|discriminate].
  destruct (fpow v1 2) as [p1|] eqn:Ep1; cbn [bind] in H; [|discriminate].
  destruct (cos (radians lat1)) as [c1|] eqn:Ec1; cbn [bind] in H;
    [|discriminate].
  destruct (cos (radians lat2)) as [c2|] eqn:Ec2; cbn [bind] in H;
    [|discriminate].
  destruct (sin (fdiv (radians (fsub lon2 lon1)) (of_int 2))) as [v2|] eqn:Es2;
    cbn [bind] in H; [|discriminate].
  destruct (fpow v2 2) as [p2|] eqn:Ep2; cbn [bind] in H; [|discriminate].
  destruct (hav_swap_binary64 (sub_swap lat2 lat1) Es1 Ep1) as (w1 & Hw1 & Hq1).
  destruct (hav_swap_binary64 (sub_swap lon2 lon1) Es2 Ep2) as (w2 & Hw2 & Hq2).
  cbn [fsub binary64] in *.
  rewrite Hw1. cbn [bind]. rewrite Hq1. cbn [bind].
  rewrite Hw2. cbn [bind]. rewrite Hq2. cbn [bind].
  cbn [fmul binary64] in *. rewrite (mul_comm c2 c1). exact H.
Qed.

End Symmetry.

(** The binary digits of a mantissa. *)

Lemma digits2_pos_bounds : forall p,
  2 ^ (Z.pos (digits2_pos p) - 1) <= Z.pos p < 2 ^ Z.pos (digits2_pos p).
Proof.
  induction p as [p IH|p IH|]; cbn [digits2_pos];
    rewrite ?Pos2Z.inj_succ.
  - replace (Z.succ (Z.pos (digits2_pos p)) - 1)
      with (Z.succ (Z.pos (digits2_pos p) - 1)) by lia.
    rewrite !Z.pow_succ_r by lia. lia.
  - replace (Z.succ (Z.pos (digits2_pos p)) - 1)
      with (Z.succ (Z.pos (digits2_pos p) - 1)) by lia.
    rewrite !Z.pow_succ_r by lia. lia.
  - split; [reflexivity|reflexivity].
Qed.

Lemma Zdigits2_le : forall x k,
  0 <= x < 2 ^ k -> 0 <= k -> Zdigits2 x <= k.
Proof.
  intros [|p|p] k [H0 Hk] Hk0; cbn [Zdigits2]; [assumption| |lia].
  destruct (digits2_pos_bounds p) as [Hlow _].
  destruct (Z.le_gt_cases (Z.pos (digits2_pos p)) k) as [|Hgt]; [assumption|].
  exfalso.
  assert (2 ^ k <= 2 ^ (Z.pos (digits2_pos p) - 1))
    by (apply Z.pow_le_mono_r; lia).
  lia.
Qed.

(** Shifting a mantissa to the right does not make it larger, rounding
    adds one at most. *)

Lemma shr_1_bounds : forall mrs,
  0 <= shr_m mrs -> 0 <= shr_m (shr_1 mrs) <= shr_m mrs.
Proof.
  intros [[|[p|p|]|p] r s] H; cbn [shr_1 shr_m] in *; lia.
Qed.

Lemma iter_shr_1_bounds : forall n mrs,
  0 <= shr_m mrs -> 0 <= shr_m (SpecFloat.iter_pos shr_1 n mrs) <= shr_m mrs.
Proof.
  induction n as [n IH|n IH|]; intros mrs H; cbn [SpecFloat.iter_pos].
  - pose proof (shr_1_bounds mrs H) as H1.
    pose proof (IH _ (proj1 H1)) as H2.
    pose proof (IH _ (proj1 H2)) as H3. lia.
  - pose proof (IH _ H) as H2.
    pose proof (IH _ (proj1 H2)) as H3. lia.
  - apply shr_1_bounds. assumption.
Qed.

Lemma shr_m_of_loc : forall m l, shr_m (shr_record_of_loc m l) = m.
Proof. intros m [|[| |]]; reflexivity. Qed.

Lemma shr_fexp_bounds : forall m e l,
  0 <= m ->
  0 <= shr_m (fst (shr_fexp prec emax m e l)) <= m /\
  snd (shr_fexp prec emax m e l)
    = Z.max e (fexp prec emax (Zdigits2 m + e)).
Proof.
  intros m e l Hm. unfold shr_fexp, shr.
  destruct (fexp prec emax (Zdigits2 m + e) - e) as [|n|n] eqn:En;
    cbn [fst snd]; rewrite ?shr_m_of_loc.
  - split; lia.
  - pose proof (iter_shr_1_bounds n (shr_record_of_loc m l)) as H.
    rewrite shr_m_of_loc in H. split; [apply H; assumption|lia].
  - split; lia.
Qed.

Lemma round_nearest_even_bounds : forall m l,
  m <= round_nearest_even m l <= m + 1.
Proof.
  intros m [|[| |]]; cbn [round_nearest_even]; try lia.
  destruct (Z.even m); lia.
Qed.

(** A mantissa below [2 ^ 106] with an exponent of [-104] at most, as
    that of the product of two doubles no larger than 1, is rounded to a
    zero or to a finite double. *)
Lemma binary_round_aux_small : forall sx p e l,
  Z.pos p < 2 ^ 106 -> e <= -104 ->
  binary_round_aux prec emax sx (Z.pos p) e l = S754_zero sx \/
  exists m' e', binary_round_aux prec emax sx (Z.pos p) e l
                = S754_finite sx m' e'.
Proof.
  intros sx p e l Hp He. unfold binary_round_aux.
  pose proof (@shr_fexp_bounds (Z.pos p) e l ltac:(lia)) as [Hm1 He1].
  destruct (shr_fexp prec emax (Z.pos p) e l) as [mrs1 e1].
  cbn [fst snd] in Hm1, He1.
  pose proof (round_nearest_even_bounds (shr_m mrs1)
                (loc_of_shr_record mrs1)) as Hr.
  set (m2 := round_nearest_even (shr_m mrs1) (loc_of_shr_record mrs1)) in *.
  pose proof (@shr_fexp_bounds m2 e1 loc_Exact ltac:(lia)) as [Hm2 He2].
  destruct (shr_fexp prec emax m2 e1 loc_Exact) as [mrs2 e2].
  cbn [fst snd] in Hm2, He2.
  assert (Hd1 : Zdigits2 (Z.pos p) <= 106) by (apply Zdigits2_le; lia).
  assert (Hd2 : Zdigits2 m2 <= 107).
  { apply Zdigits2_le; [|lia]. split; [lia|].
    change (2 ^ 107) with (2 * 2 ^ 106). lia. }
  unfold fexp, emin in He1, He2.
  change prec with 53 in *. change emax with 1024 in *.
  destruct (shr_m mrs2) as [|m'|m']; [left; reflexivity| |lia].
  right. exists m', e2.
  replace (e2 <=? 1024 - 53) with true; [reflexivity|].
  symmetry. apply Z.leb_le. lia.
Qed.

(** What the classification of a double says of its representation. *)

Lemma is_finite_cases : forall x : float,
  is_finite x = true ->
  exists s, Prim2SF x = S754_zero s \/
            exists m e, Prim2SF x = S754_finite s m e.
Proof.
  intros x H. unfold is_finite, is_nan, is_infinity in H.
  rewrite !eqb_spec, abs_spec in H.
  destruct (Prim2SF x) as [s|s| |s m e].
  - exists s. left. reflexivity.
  - exfalso. destruct s; vm_compute in H; discriminate.
  - exfalso. vm_compute in H. discriminate.
  - exists s. right. exists m, e. reflexivity.
Qed.

Lemma at_most_one_cases : forall c : float,
  (abs c <=? 1)%float = true ->
  exists s, Prim2SF c = S754_zero s \/
            exists m e, Prim2SF c = S754_finite s m e /\
                        Z.pos m < 2 ^ 53 /\ e <= -52.
Proof.
  intros c H. rewrite leb_spec, abs_spec in H.
  pose proof (Prim2SF_valid c) as Hv.
  destruct (Prim2SF c) as [s|s| |s m e].
  - exists s. left. reflexivity.
  - exfalso. vm_compute in H. discriminate.
  - exfalso. vm_compute in H. discriminate.
  - exists s. right. exists m, e. split; [reflexivity|].
    cbn [valid_binary] in Hv. unfold bounded, canonical_mantissa in Hv.
    apply andb_prop in Hv. destruct Hv as [Hc _].
    apply Z.eqb_eq in Hc. unfold fexp in Hc.
    destruct (digits2_pos_bounds m) as [_ Hup].
    change prec with 53 in Hc.
    assert (Hd : Z.pos (digits2_pos m) <= 53) by lia.
    split.
    + assert (2 ^ Z.pos (digits2_pos m) <= 2 ^ 53)
        by (apply Z.pow_le_mono_r; lia).
      lia.
    + change (Prim2SF 1) with (S754_finite false 4503599627370496 (-52)) in H.
      unfold SFleb, SFcompare, SFabs in H.
      destruct (Z.compare_spec e (-52)); [lia|lia|discriminate].
Qed.

(** A finite double minus itself is [+0]. *)
Lemma sub_self : forall x : float,
  is_finite x = true -> (x - x = 0)%float.
Proof.
  intros x H. apply Prim2SF_inj. rewrite sub_spec.
  destruct (@is_finite_cases x H) as [s [E|(m & e & E)]]; rewrite E.
  - destruct s; reflexivity.
  - unfold SF64sub, SFsub. rewrite Z.sub_diag. reflexivity.
Qed.

(** The square of a double no larger than 1, times zero, is [+0]. *)
Lemma square_times_zero : forall c : float,
  (abs c <=? 1)%float = true -> (c * c * 0 = 0)%float.
Proof.
  intros c H. apply Prim2SF_inj. rewrite !mul_spec.
  change (Prim2SF 0) with (S754_zero false).
  destruct (@at_most_one_cases c H) as [s [E|(m & e & E & Hm & He)]];
    rewrite E.
  - destruct s; reflexivity.
  - unfold SF64mul. cbn [SFmul].
    destruct (@binary_round_aux_small (xorb s s) (m * m) (e + e) loc_Exact)
      as [E1|(m' & e' & E1)].
    + rewrite Pos2Z.inj_mul. change (2 ^ 106) with (2 ^ 53 * 2 ^ 53). nia.
    + lia.
    + rewrite E1. destruct s; reflexivity.
    + rewrite E1. destruct s; reflexivity.
Qed.

(** With a C library that is exact at 0 and at 1, and whose cosine of
    the latitude is a number no larger than 1, the distance from a
    point with finite coordinates to itself is [+0]. *)
Section Diagonal.

Context {LM : Libm float}.

Lemma haversine_km_same_binary64 : forall lat lon c : float,
  is_finite lat = true -> is_finite lon = true ->
  sin 0%float = Ok 0%float ->
  fpow 0%float 2 = Ok 0%float ->
  cos (radians lat) = Ok c -> (abs c <=? 1)%float = true ->
  sqrt 0%float = Ok 0%float ->
  sqrt 1%float = Ok 1%float ->
  atan2 0%float 1%float = Ok 0%float ->
  haversine_km lat lon lat lon = Ok 0%float.
Proof.
  intros lat lon c Hlat Hlon Hsin Hpow Hcos Hc Hsqrt0 Hsqrt1 Hatan.
  unfold haversine_km. cbn [fsub binary64].
  rewrite (@sub_self lat Hlat), (@sub_self lon Hlon).
  replace (fdiv (radians 0%float) (of_int 2)) with 0%float
    by (vm_compute; reflexivity).
  rewrite Hsin. cbn [bind]. rewrite Hpow. cbn [bind].
  rewrite Hcos. cbn [bind]. cbn [fadd fmul binary64].
  rewrite (@square_times_zero c Hc).
  replace (0 + 0)%float with 0%float by (vm_compute; reflexivity).
  rewrite Hsqrt0. cbn [bind].
  replace (of_int 1 - 0)%float with 1%float by (vm_compute; reflexivity).
  rewrite Hsqrt1. cbn [bind]. rewrite Hatan. cbn [bind].
  vm_compute. reflexivity.
Qed.

End Diagonal.

End Binary64Facts.

(** * The reference C library *)

Module ReferenceFacts.

Import Binary64 Reference.

(** Changing the sign of a double changes nothing else. *)

Lemma opp_involutive : forall x : float, (- - x = x)%float.
Proof.
  intros x. apply Prim2SF_inj. rewrite !opp_spec.
  destruct (Prim2SF x) as [s|s| |s m e]; cbn [SFopp];
    rewrite ?negb_involutive; reflexivity.
Qed.

Lemma abs_opp : forall x : float, abs (- x)%float = abs x.
Proof.
  intros x. apply Prim2SF_inj. rewrite !abs_spec, opp_spec.
  destruct (Prim2SF x); reflexivity.
Qed.

Lemma SFeqb_refl_opp : forall a : spec_float,
  SFeqb (SFopp a) (SFopp a) = SFeqb a a.
Proof.
  intros [s|s| |s m e]; try reflexivity; try (destruct s; reflexivity).
  unfold SFeqb, SFcompare, SFopp.
  rewrite Z.compare_refl, Pos.compare_cont_refl. destruct s; reflexivity.
Qed.

Lemma is_nan_opp : forall x : float, is_nan (- x)%float = is_nan x.
Proof.
  intros x. unfold is_nan. rewrite !eqb_spec, opp_spec, SFeqb_refl_opp.
  reflexivity.
Qed.

Lemma is_infinity_opp : forall x : float,
  is_infinity (- x)%float = is_infinity x.
Proof. intros x. unfold is_infinity. rewrite abs_opp. reflexivity. Qed.

Lemma is_finite_opp : forall x : float, is_finite (- x)%float = is_finite x.
Proof.
  intros x. unfold is_finite. rewrite is_nan_opp, is_infinity_opp.
  reflexivity.
Qed.

Lemma is_zero_opp : forall x : float, is_zero (- x)%float = is_zero x.
Proof.
  intros x. unfold is_zero. rewrite !eqb_spec, opp_spec.
  change (Prim2SF zero) with (S754_zero false).
  destruct (Prim2SF x) as [s|s| |s m e]; try (destruct s; reflexivity).
  reflexivity.
Qed.

Lemma is_nan_eq : forall x : float, is_nan x = true -> (- x)%float = x.
Proof.
  intros x H. apply Prim2SF_inj. rewrite opp_spec.
  unfold is_nan in H. rewrite eqb_spec in H.
  destruct (Prim2SF x) as [s|s| |s m e]; [| |reflexivity|];
    exfalso; revert H; unfold SFeqb, SFcompare;
    rewrite ?Z.compare_refl, ?Pos.compare_cont_refl;
    destruct s; discriminate.
Qed.

Lemma magnitude_opp : forall x : float, magnitude (- x)%float = magnitude x.
Proof.
  intros x. unfold magnitude. rewrite opp_spec.
  destruct (Prim2SF x); reflexivity.
Qed.

(** The sine of the reference library is odd, and stays so under the
    check of the interpreter. *)

Lemma c_sin_opp : forall x : float, c_sin (- x)%float = (- c_sin x)%float.
Proof.
  intros x. unfold c_sin. rewrite magnitude_opp, opp_spec.
  destruct (Prim2SF x) as [s|s| |s m e]; cbn [SFopp].
  - reflexivity.
  - reflexivity.
  - reflexivity.
  - destruct s; cbn [negb]; [rewrite opp_involutive|]; reflexivity.
Qed.

Lemma sin_odd : forall x y : float,
  @sin _ libm x = Ok y -> @sin _ libm (- x)%float = Ok (- y)%float.
Proof.
  intros x y. cbn [sin libm]. unfold math_1.
  rewrite c_sin_opp, !is_nan_opp, is_infinity_opp, is_finite_opp.
  destruct (is_nan (c_sin x) && negb (is_nan x)); [discriminate|].
  destruct (is_infinity (c_sin x) && is_finite x); [discriminate|].
  intros H. injection H as <-. reflexivity.
Qed.

(** Its square is even. *)
Lemma square_even : forall x : float,
  @fpow _ libm (- x)%float 2 = @fpow _ libm x 2.
Proof.
  intros x. cbn [fpow libm]. unfold float_pow.
  change (2 =? 0) with false. change (0 <? 2) with true.
  change (2 <? 0) with false. change (Z.odd 2) with false. cbv iota.
  rewrite is_nan_opp, is_infinity_opp, is_zero_opp, abs_opp, !andb_false_r.
  destruct (is_nan x) eqn:En; [rewrite (is_nan_eq x En); reflexivity|].
  reflexivity.
Qed.

End ReferenceFacts.

(** ** Distance *)

(** C7 (as amended): the haversine distance is a function of its four
    arguments alone.  In exact arithmetic it always returns; what it
    returns is the great-circle distance on a sphere of radius 6371 km,
    which is not negative, the same from A to B as from B to A, and 0
    from A to A.  In binary64, with a C library whose sine is odd and
    whose square is even, the distance from B to A is returned whenever
    the distance from A to B is, and is the same double.  In binary64,
    with a C library that is exact at 0 and at 1, the distance from a
    point with finite coordinates to itself is [+0] when the cosine of
    its latitude is returned and is no larger than 1 in absolute
    value. *)
Theorem haversine_symmetric_zero :
  (forall lat1 lon1 lat2 lon2 : R,
      haversine_km lat1 lon1 lat2 lon2 =
        Ok (Exact.great_circle_km lat1 lon1 lat2 lon2) /\
      (exists d, haversine_km lat1 lon1 lat2 lon2 = Ok d /\ (0 <= d)%R) /\
      haversine_km lat1 lon1 lat2 lon2 = haversine_km lat2 lon2 lat1 lon1 /\
      haversine_km lat1 lon1 lat1 lon1 = Ok 0%R) /\
  (forall LM : Libm float,
      (forall x y : float,
          sin x = Ok y -> sin (- x)%float = Ok (- y)%float) ->
      (forall x : float, fpow (- x)%float 2 = fpow x 2) ->
      forall lat1 lon1 lat2 lon2 d : float,
        haversine_km lat1 lon1 lat2 lon2 = Ok d ->
        haversine_km lat2 lon2 lat1 lon1 = Ok d) /\
  (forall (LM : Libm float) (lat lon c : float),
      is_finite lat = true -> is_finite lon = true ->
      sin 0%float = Ok 0%float ->
      fpow 0%float 2 = Ok 0%float ->
      cos (radians lat) = Ok c -> (abs c <=? 1)%float = true ->
      sqrt 0%float = Ok 0%float ->
      sqrt 1%float = Ok 1%float ->
      atan2 0%float 1%float = Ok 0%float ->
      haversine_km lat lon lat lon = Ok 0%float).
Proof.
  split; [|split].
  - intros lat1 lon1 lat2 lon2. split; [|split; [|split]].
    + apply GreatCircleFacts.haversine_km_great_circle.
    + destruct (haversine_km lat1 lon1 lat2 lon2) as [d|e] eqn:E.
      * exists d. split; [reflexivity|].
        exact (ExactFacts.haversine_km_nonneg _ _ _ _ E).
      * rewrite ExactFacts.haversine_km_exact in E. discriminate.
    + apply ExactFacts.haversine_km_swap.
    + apply ExactFacts.haversine_km_same.
  - intros LM Hodd Heven lat1 lon1 lat2 lon2 d H.
    exact (@Binary64Facts.haversine_km_swap_binary64 LM Hodd Heven
             lat1 lon1 lat2 lon2 d H).
  - intros LM lat lon c Hlat Hlon Hsin Hpow Hcos Hc Hsqrt0 Hsqrt1 Hatan.
    exact (@Binary64Facts.haversine_km_same_binary64 LM lat lon c
             Hlat Hlon Hsin Hpow Hcos Hc Hsqrt0 Hsqrt1 Hatan).
Qed.

(** * Further properties of the store *)

Section StoreMore.

Context {F : Type} {PF : PyFloat F}.

Implicit Types (s : State F) (t u : Toilet F) (db : list (Toilet F)).
Implicit Types (tid k : Z) (log : list Rating) (scores : list Z).

(** ** Recomputation again *)

Lemma restat_restat : forall scores t,
  restat scores (restat scores t) = restat scores t.
Proof. intros [|x xs] t; reflexivity. Qed.

Lemma recompute_in_absent : forall tid scores db,
  (forall t, In t db -> id t <> tid) -> recompute_in tid scores db = db.
Proof.
  intros tid scores db; induction db as [|a db IH]; intros H;
    cbn [recompute_in]; [reflexivity|].
  destruct (Z.eqb_spec (id a) tid) as [E|E].
  - exfalso. apply (H a); [left; reflexivity|exact E].
  - f_equal. apply IH. intros t Ht. apply H. right. exact Ht.
Qed.

Lemma recompute_in_twice : forall tid scores db,
  recompute_in tid scores (recompute_in tid scores db) =
  recompute_in tid scores db.
Proof.
  intros tid scores db; induction db as [|a db IH]; cbn [recompute_in];
    [reflexivity|].
  destruct (id a =? tid) eqn:E; cbn [recompute_in].
  - rewrite restat_id, E, restat_restat. reflexivity.
  - rewrite E, IH. reflexivity.
Qed.

Lemma first_with_id_recompute_other : forall tid k scores db,
  k <> tid ->
  first_with_id k (recompute_in tid scores db) = first_with_id k db.
Proof.
  intros tid k scores db Hk; induction db as [|a db IH];
    cbn [recompute_in first_with_id]; [reflexivity|].
  destruct (Z.eqb_spec (id a) tid) as [E|E]; cbn [first_with_id].
  - rewrite restat_id.
    destruct (Z.eqb_spec (id a) k) as [E'|E']; [congruence|reflexivity].
  - destruct (id a =? k); [reflexivity|exact IH].
Qed.

Lemma first_with_id_app : forall k db db',
  first_with_id k (db ++ db') =
  match first_with_id k db with
  | Some t => Some t
  | None => first_with_id k db'
  end.
Proof.
  intros k db db'; induction db as [|a db IH]; cbn [app first_with_id];
    [reflexivity|].
  destruct (id a =? k); [reflexivity|exact IH].
Qed.

(** The two ways a submission ends: it raises one of the two errors and
    returns the state it was given, or it returns a record and the state
    with the event appended and the statistics recomputed. *)
Lemma add_rating_cases : forall tid rating s,
  (exists e, add_rating tid rating s = (Raise e, s) /\
             (e = InvalidInput \/ e = NotFound)) \/
  (exists t, add_rating tid rating s =
             (Ok t,
              {| toilets_db :=
                   recompute_in tid
                     (scores_of tid (ratings_db s ++ [new_event tid rating]))
                     (toilets_db s);
                 ratings_db := ratings_db s ++ [new_event tid rating];
                 next_toilet_id := next_toilet_id s |})).
Proof.
  intros tid rating s.
  destruct (add_rating tid rating s) as [[t|e] s'] eqn:E.
  - right. exists t.
    destruct (add_rating_ok _ _ _ E) as (i & t0 & _ & _ & _ & _ & _ & ->).
    reflexivity.
  - left. exists e. unfold add_rating in E.
    destruct (negb _); [injection E as <- <-; auto|].
    destruct (find_id tid (toilets_db s)) as [i|];
      [|injection E as <- <-; auto].
    destruct (nth_error _ i); [discriminate|injection E as <- <-; auto].
Qed.

Lemma find_id_in_range : forall tid db i,
  find_id tid db = Some i -> (i < List.length db)%nat.
Proof.
  intros tid db i H. destruct (find_id_nth _ _ H) as (t & Hn & _).
  apply nth_error_Some. rewrite Hn. discriminate.
Qed.

(** X1: recomputing the statistics of a record a second time changes
    nothing: the state after two recomputations is the state after one. *)
Theorem recompute_rating_stats_idempotent : forall tid s,
  recompute_rating_stats tid (recompute_rating_stats tid s) =
  recompute_rating_stats tid s.
Proof.
  intros tid s. unfold recompute_rating_stats.
  cbn [toilets_db ratings_db next_toilet_id].
  rewrite recompute_in_twice. reflexivity.
Qed.

(** X2: recomputing the statistics for an identifier that no record has
    leaves the whole state as it is. *)
Theorem recompute_rating_stats_unknown : forall tid s,
  (forall t, In t (toilets_db s) -> id t <> tid) ->
  recompute_rating_stats tid s = s.
Proof.
  intros tid s H. unfold recompute_rating_stats.
  rewrite (recompute_in_absent _ _ H). destruct s; reflexivity.
Qed.

(** X3: a submission returns a record exactly when the cleanliness is
    between 1 and 5 and some record has the identifier; when it raises, the
    exception is one of the two HTTP errors and the state returned is the
    state given. *)
Theorem add_rating_outcome : forall tid rating s,
  ((exists t s', add_rating tid rating s = (Ok t, s')) <->
   (1 <= cleanliness rating <= 5 /\
    exists t, In t (toilets_db s) /\ id t = tid)) /\
  (forall e s',
      add_rating tid rating s = (Raise e, s') ->
      s' = s /\ (e = InvalidInput \/ e = NotFound)).
Proof.
  intros tid rating s. split.
  - split.
    + intros (t & s' & H).
      destruct (add_rating_ok _ _ _ H) as (i & t0 & Hr & _ & Hn & Hid & _).
      split; [exact Hr|]. exists t0. split; [|exact Hid].
      eapply nth_error_In. exact Hn.
    + intros [Hr (t & Hin & Hid)]. unfold add_rating.
      apply in_range_dec in Hr. rewrite Hr.
      destruct (find_id tid (toilets_db s)) as [i|] eqn:Ef.
      * pose proof (find_id_in_range _ _ Ef) as Hlt.
        unfold recompute_rating_stats. cbn [toilets_db ratings_db].
        rewrite <- (recompute_in_length tid
                      (scores_of tid
                         (ratings_db s ++
                          [{| toilet_id := tid;
                              r_cleanliness := cleanliness rating;
                              r_comment := comment rating |}]))) in Hlt.
        apply nth_error_Some in Hlt.
        destruct (nth_error _ i) as [u|]; [|contradiction Hlt; reflexivity].
        eexists _, _. reflexivity.
      * exfalso. rewrite find_id_none in Ef. exact (Ef t Hin Hid).
  - intros e s' H.
    destruct (add_rating_cases tid rating s) as [(e0 & E & He)|(t & E)];
      rewrite E in H; [|discriminate].
    injection H as <- <-. auto.
Qed.

(** X4: a submission for one identifier, whether it succeeds or fails, and
    the creation of a record, do not change what the lookup of any other
    identifier returns. *)
Theorem lookup_unaffected :
  (forall tid rating s k,
      k <> tid ->
      get_toilet k (snd (add_rating tid rating s)) = get_toilet k s) /\
  (forall toilet s k,
      k <> next_toilet_id s ->
      get_toilet k (snd (create_toilet toilet s)) = get_toilet k s).
Proof.
  split.
  - intros tid rating s k Hk.
    destruct (add_rating_cases tid rating s) as [(e & E & _)|(t & E)];
      rewrite E; cbn [snd]; [reflexivity|].
    unfold get_toilet. cbn [toilets_db].
    rewrite first_with_id_recompute_other by exact Hk. reflexivity.
  - intros toilet s k Hk. unfold get_toilet, create_toilet.
    cbn [snd toilets_db]. rewrite first_with_id_app.
    destruct (first_with_id k (toilets_db s)); [reflexivity|].
    cbn [first_with_id id].
    destruct (Z.eqb_spec (next_toilet_id s) k); [congruence|reflexivity].
Qed.

End StoreMore.

(** * Further properties of the service *)

Section ServiceMore.

Context {F : Type} {PF : PyFloat F} {LM : Libm F}.

Implicit Types (s : State F) (t u : Toilet F) (db : list (Toilet F)).
Implicit Types (tid k : Z) (log : list Rating).
Implicit Types (rq : Request F) (rqs : list (Request F)).

(** ** Invariants along a run *)

Lemma serve_preserves : forall (P : State F -> Prop),
  (forall rq s, P s -> P (snd (handle rq s))) ->
  forall rqs s, P s -> P (snd (serve rqs s)).
Proof.
  intros P Hstep rqs; induction rqs as [|rq rqs IH]; intros s Hs;
    cbn [serve]; [exact Hs|].
  pose proof (Hstep rq s Hs) as H1.
  destruct (handle rq s) as [r s1]. cbn [snd] in H1.
  specialize (IH s1 H1). destruct (serve rqs s1). exact IH.
Qed.

(** What a request does to the state: nothing, a creation, or a successful
    submission. *)
Lemma handle_cases : forall rq s,
  snd (handle rq s) = s \/
  (exists toilet, snd (handle rq s) = snd (create_toilet toilet s)) \/
  (exists tid rating t,
      add_rating tid rating s = (Ok t, snd (handle rq s))).
Proof.
  intros rq s. destruct rq as [|toilet|lat lng r|tid|tid rating];
    cbn [handle].
  - left. reflexivity.
  - right. left. exists toilet. reflexivity.
  - left. destruct (list_toilets lat lng r s); reflexivity.
  - left. reflexivity.
  - destruct (add_rating_cases tid rating s) as [(e & E & _)|(t & E)].
    + left. rewrite E. reflexivity.
    + right. right. exists tid, rating, t. rewrite E. reflexivity.
Qed.

Lemma reachable_invariant : forall rqs,
  well_formed (snd (serve rqs (@init F))) /\
  consistent (snd (serve rqs (@init F))).
Proof.
  intros rqs. apply serve_invariant. split.
  - apply well_formed_init.
  - apply consistent_init.
Qed.

Lemma reachable_scores_in_range : forall rqs,
  Forall (fun r => 1 <= r_cleanliness r <= 5)
         (ratings_db (snd (serve rqs (@init F)))).
Proof.
  intros rqs.
  apply (serve_preserves
           (fun s => Forall (fun r => 1 <= r_cleanliness r <= 5)
                            (ratings_db s))); [|constructor].
  intros rq s Hs.
  destruct (handle_cases rq s) as [->|[(toilet & ->)|(tid & rating & t & E)]];
    [exact Hs|exact Hs|].
  destruct (add_rating_ok _ _ _ E) as (i & t0 & Hr & _ & _ & _ & _ & ->).
  cbn [ratings_db]. apply Forall_app. split; [exact Hs|].
  constructor; [exact Hr|constructor].
Qed.

Lemma count_from_In : forall n a x,
  a <= x < a + Z.of_nat n -> In x (count_from a n).
Proof.
  induction n as [|n IH]; intros a x H; [lia|].
  cbn [count_from]. destruct (Z.eq_dec a x) as [->|Hne]; [left; reflexivity|].
  right. apply IH. lia.
Qed.

(** ** The store and the log only grow *)

Lemma extends_refl : forall s, extends s s.
Proof.
  intros s. split; [exists []; symmetry; apply app_nil_r|].
  split; [lia|]. intros i u Hu. exists u.
  split; [exact Hu|apply same_description_refl].
Qed.

Lemma same_description_trans : forall t u v,
  same_description t u -> same_description u v -> same_description t v.
Proof.
  unfold same_description. intros t u v H1 H2.
  repeat match goal with H : _ /\ _ |- _ => destruct H end.
  repeat split; congruence.
Qed.

Lemma extends_trans : forall s1 s2 s3,
  extends s1 s2 -> extends s2 s3 -> extends s1 s3.
Proof.
  intros s1 s2 s3 ((a1 & H1) & Hn1 & Hf1) ((a2 & H2) & Hn2 & Hf2).
  split; [exists (a1 ++ a2); rewrite H2, H1, app_assoc; reflexivity|].
  split; [lia|]. intros i u Hu.
  destruct (Hf1 i u Hu) as (u1 & Hu1 & Hs1).
  destruct (Hf2 i u1 Hu1) as (u2 & Hu2 & Hs2).
  exists u2. split; [exact Hu2|].
  eapply same_description_trans; eassumption.
Qed.

Lemma handle_extends : forall rq s, extends s (snd (handle rq s)).
Proof.
  intros rq s.
  destruct (handle_cases rq s) as [->|[(toilet & ->)|(tid & rating & t & E)]].
  - apply extends_refl.
  - unfold create_toilet. cbn [snd]. split; [|split].
    + exists []. cbn [ratings_db]. symmetry. apply app_nil_r.
    + cbn [next_toilet_id]. lia.
    + cbn [toilets_db]. intros i u Hu. exists u.
      split; [|apply same_description_refl].
      rewrite nth_error_app1; [exact Hu|].
      apply nth_error_Some. rewrite Hu. discriminate.
  - destruct (add_rating_ok _ _ _ E) as (i & t0 & _ & _ & _ & _ & _ & ->).
    split; [|split].
    + exists [new_event tid rating]. reflexivity.
    + cbn [next_toilet_id]. lia.
    + cbn [toilets_db]. intros j u Hu.
      destruct (recompute_in_frame tid
                  (scores_of tid (ratings_db s ++ [new_event tid rating]))
                  _ _ Hu) as (u' & Hu' & Hsame & _).
      exists u'. auto.
Qed.

(** X5: whatever requests are served, from whatever state, the log keeps
    the events it had at the front, in order, the identifier counter does
    not go down, and every record stays at its position with its
    identifier, name, coordinates and flags: nothing is removed, reordered
    or edited but the two statistics. *)
Theorem store_and_log_only_grow : forall rqs s,
  let s' := snd (serve rqs s) in
  (exists added, ratings_db s' = ratings_db s ++ added) /\
  next_toilet_id s <= next_toilet_id s' /\
  (forall i u,
      nth_error (toilets_db s) i = Some u ->
      exists u', nth_error (toilets_db s') i = Some u' /\
                 same_description u' u).
Proof.
  intros rqs; induction rqs as [|rq rqs IH]; intros s.
  - exact (extends_refl s).
  - cbn [serve]. pose proof (handle_extends rq s) as H1.
    destruct (handle rq s) as [r s1]. cbn [snd] in H1.
    specialize (IH s1). destruct (serve rqs s1) as [rs s2].
    cbn [snd] in *. exact (extends_trans H1 IH).
Qed.

(** X6: after any run from the initial state, every event in the log has a
    cleanliness between 1 and 5 and carries the identifier of a record that
    is in the store. *)
Theorem log_is_sound : forall rqs,
  let s := snd (serve rqs (@init F)) in
  Forall (fun r => 1 <= r_cleanliness r <= 5 /\
                   exists t, In t (toilets_db s) /\ id t = toilet_id r)
         (ratings_db s).
Proof.
  intros rqs s.
  destruct (reachable_invariant rqs) as [(Hids & Hnext & Hlog) _].
  pose proof (reachable_scores_in_range rqs) as Hrange.
  fold s in Hids, Hnext, Hlog, Hrange.
  rewrite Forall_forall in *. intros r Hr. split; [exact (Hrange r Hr)|].
  specialize (Hlog r Hr). cbv beta in Hlog.
  assert (Hin : In (toilet_id r) (map id (toilets_db s))).
  { rewrite Hids. apply count_from_In. unfold len in Hnext. lia. }
  apply in_map_iff in Hin. destruct Hin as (t & Hid & Hin).
  exists t. auto.
Qed.

(** X7: after any run from the initial state, the rating count of every
    record is not negative, and the record has no average exactly when its
    count is 0. *)
Theorem count_and_average_agree : forall rqs t,
  In t (toilets_db (snd (serve rqs (@init F)))) ->
  0 <= rating_count t /\
  (avg_cleanliness t = None <-> rating_count t = 0).
Proof.
  intros rqs t Hin.
  destruct (reachable_invariant rqs) as [_ Hc].
  unfold consistent in Hc. rewrite Forall_forall in Hc.
  destruct (Hc t Hin) as [Hcount Havg]. rewrite Hcount, Havg.
  unfold len. rewrite <- (length_map r_cleanliness).
  destruct (map r_cleanliness _) as [|x xs]; cbn [arithmetic_mean List.length].
  - split; [lia|]. split; reflexivity.
  - split; [lia|]. split; [discriminate|lia].
Qed.

(** ** Lookup after creation *)

(** X8: after any run from the initial state, a record that has just been
    created is what the lookup of its identifier returns. *)
Theorem create_then_get : forall rqs toilet,
  let s := snd (serve rqs (@init F)) in
  get_toilet (id (fst (create_toilet toilet s))) (snd (create_toilet toilet s))
  = Ok (fst (create_toilet toilet s)).
Proof.
  intros rqs toilet s.
  destruct (reachable_invariant rqs) as [(Hids & Hnext & _) _].
  fold s in Hids, Hnext.
  unfold get_toilet, create_toilet. cbn [fst snd id toilets_db].
  rewrite first_with_id_app.
  assert (Hnone : first_with_id (next_toilet_id s) (toilets_db s) = None).
  { apply first_with_id_none. intros t Ht Hid.
    apply (in_map id) in Ht. rewrite Hids, Hid in Ht.
    apply count_from_bounds in Ht. unfold len in Hnext. lia. }
  rewrite Hnone. cbn [first_with_id id]. rewrite Z.eqb_refl. reflexivity.
Qed.

Lemma first_with_id_sequential : forall db a k,
  map id db = count_from a (List.length db) ->
  a <= k < a + len db ->
  exists t, nth_error db (Z.to_nat (k - a)) = Some t /\
            first_with_id k db = Some t /\ id t = k.
Proof.
  induction db as [|t0 db IH]; intros a k Hids Hk; unfold len in *;
    cbn [List.length] in *; [lia|].
  cbn [map count_from] in Hids. injection Hids as Hid0 Hrest.
  cbn [first_with_id]. destruct (Z.eqb_spec (id t0) k) as [E|E].
  - exists t0. replace (k - a) with 0 by lia. auto.
  - destruct (IH (a + 1) k Hrest) as (t & Hn & Hf & Hid); [lia|].
    exists t. replace (Z.to_nat (k - a)) with (S (Z.to_nat (k - (a + 1))))
      by lia.
    auto.
Qed.

(** X9: after any run from the initial state that leaves [n] records in
    the store, the lookup of [k] returns the [k]-th record, whose
    identifier is [k], when [k] is between 1 and [n], and raises the 404
    error for every other [k]. *)
Theorem lookup_by_position : forall rqs k,
  let s := snd (serve rqs (@init F)) in
  (1 <= k <= len (toilets_db s) ->
   exists t, nth_error (toilets_db s) (Z.to_nat (k - 1)) = Some t /\
             get_toilet k s = Ok t /\ id t = k) /\
  (k < 1 \/ len (toilets_db s) < k -> get_toilet k s = Raise NotFound).
Proof.
  intros rqs k s.
  destruct (reachable_invariant rqs) as [(Hids & _ & _) _]. fold s in Hids.
  split.
  - intros Hk.
    destruct (@first_with_id_sequential (toilets_db s) 1 k Hids)
      as (t & Hn & Hf & Hid); [lia|].
    exists t. unfold get_toilet. rewrite Hf. auto.
  - intros Hk. unfold get_toilet.
    assert (Hnone : first_with_id k (toilets_db s) = None).
    { apply first_with_id_none. intros t Ht Hid.
      apply (in_map id) in Ht. rewrite Hids, Hid in Ht.
      apply count_from_bounds in Ht. unfold len in Hk. lia. }
    rewrite Hnone. reflexivity.
Qed.

(** ** Counting ratings *)

Lemma events_for_snoc_same : forall tid log rating,
  events_for tid (log ++ [new_event tid rating]) =
  events_for tid log ++ [new_event tid rating].
Proof.
  intros tid log rating. rewrite events_for_app. f_equal.
  unfold events_for. cbn [filter new_event toilet_id].
  rewrite Z.eqb_refl. reflexivity.
Qed.

(** X10: after any run from the initial state, a successful submission
    returns the record with its rating count raised by exactly one, and
    lengthens the log by exactly one event. *)
Theorem submit_counts_one_more : forall rqs tid rating t0 t s',
  let s := snd (serve rqs (@init F)) in
  get_toilet tid s = Ok t0 ->
  add_rating tid rating s = (Ok t, s') ->
  rating_count t = rating_count t0 + 1 /\
  len (ratings_db s') = len (ratings_db s) + 1.
Proof.
  intros rqs tid rating t0 t s' s Hget Hadd.
  destruct (reachable_invariant rqs) as [_ Hc]. fold s in Hc.
  destruct (add_rating_ok _ _ _ Hadd) as (i & t1 & _ & Hf & Hn & Hid & -> & ->).
  destruct (find_id_nth _ _ Hf) as (t2 & Hn2 & _ & Hfirst).
  unfold get_toilet in Hget. rewrite Hfirst in Hget. injection Hget as <-.
  assert (t2 = t1) by congruence. subst t2.
  unfold consistent in Hc. rewrite Forall_forall in Hc.
  destruct (Hc t1 (nth_error_In _ _ Hn)) as [Hcount _].
  destruct (restat_stats
              (scores_of tid (ratings_db s ++ [new_event tid rating])) t1)
    as [Hnew _].
  rewrite Hnew, Hcount, Hid, scores_of_events, len_map, events_for_snoc_same.
  cbn [ratings_db]. unfold len. rewrite !length_app. cbn [List.length].
  split; lia.
Qed.

Lemma one_record_per_id : forall db x,
  NoDup (map id db) -> In x (map id db) ->
  total (map (fun t => if x =? id t then 1 else 0) db) = 1.
Proof.
  induction db as [|t db IH]; intros x Hnd Hin; [contradiction|].
  cbn [map total] in *. inversion Hnd as [|? ? Hnot Hnd']; subst.
  destruct (Z.eqb_spec x (id t)) as [E|E].
  - assert (Hzero : total (map (fun u => if x =? id u then 1 else 0) db) = 0).
    { clear IH Hnd Hnd' Hin. subst x.
      induction db as [|u db IH]; [reflexivity|].
      cbn [map total]. destruct (Z.eqb_spec (id t) (id u)) as [E|E].
      - exfalso. apply Hnot. left. symmetry. exact E.
      - rewrite IH; [reflexivity|]. intros H. apply Hnot. right. exact H. }
    lia.
  - destruct Hin as [Hin|Hin]; [congruence|]. rewrite (IH x Hnd' Hin). lia.
Qed.

Lemma total_add : forall (f g : Toilet F -> Z) db,
  total (map (fun t => f t + g t) db) = total (map f db) + total (map g db).
Proof.
  intros f g db; induction db as [|t db IH]; cbn [map total]; lia.
Qed.

Lemma events_counted_once : forall log db,
  NoDup (map id db) ->
  Forall (fun r => In (toilet_id r) (map id db)) log ->
  total (map (fun t => len (events_for (id t) log)) db) = len log.
Proof.
  induction log as [|r log IH]; intros db Hnd Hall.
  - clear Hnd Hall. induction db as [|t db IH]; [reflexivity|].
    cbn [map total]. rewrite IH. reflexivity.
  - inversion Hall as [|? ? Hr Hlog]; subst.
    rewrite (map_ext _
               (fun t => (if toilet_id r =? id t then 1 else 0)
                         + len (events_for (id t) log))).
    + rewrite total_add, (@one_record_per_id db _ Hnd Hr), (IH db Hnd Hlog).
      unfold len. cbn [List.length]. lia.
    + intros t. unfold events_for, len. cbn [filter].
      destruct (toilet_id r =? id t); cbn [List.length]; lia.
Qed.

(** X11: after any run from the initial state, the rating counts of the
    records add up to the number of events in the log: every event is
    counted, and counted once. *)
Theorem counts_add_up_to_log : forall rqs,
  let s := snd (serve rqs (@init F)) in
  total (map rating_count (toilets_db s)) = len (ratings_db s).
Proof.
  intros rqs s.
  destruct (reachable_invariant rqs) as [Hwf Hc]. fold s in Hwf, Hc.
  pose proof (well_formed_NoDup Hwf) as Hnd.
  destruct Hwf as (Hids & Hnext & Hlog).
  unfold consistent in Hc. rewrite Forall_forall in Hc.
  rewrite (map_ext_in rating_count
             (fun t => len (events_for (id t) (ratings_db s)))).
  - apply events_counted_once; [exact Hnd|].
    eapply Forall_impl; [|exact Hlog]. cbv beta. intros r Hr.
    rewrite Hids. apply count_from_In. unfold len in Hnext. lia.
  - intros t Ht. destruct (Hc t Ht) as [Hcount _]. exact Hcount.
Qed.

End ServiceMore.

(** * Further properties in exact arithmetic *)

Module ExactMore.

Import Exact ExactFacts.
Local Open Scope R_scope.

(** ** The distance *)

Lemma Ratan2_le_half_pi : forall y x, 0 <= y -> 0 <= x -> Ratan2 y x <= PI / 2.
Proof.
  intros y x Hy Hx. unfold Ratan2. pose proof PI_RGT_0 as Hpi.
  destruct (Rlt_dec 0 x).
  - left. apply atan_bound.
  - destruct (Rlt_dec x 0); [lra|].
    destruct (Rlt_dec 0 y); [lra|].
    destruct (Rlt_dec y 0); lra.
Qed.

(** X12: in exact arithmetic no distance exceeds half the circumference of
    the sphere of radius 6371 km. *)
Theorem haversine_km_at_most_half_way : forall lat1 lon1 lat2 lon2 d : R,
  haversine_km lat1 lon1 lat2 lon2 = Ok d -> d <= 6371 * PI.
Proof.
  intros lat1 lon1 lat2 lon2 d. rewrite haversine_km_exact. cbv zeta.
  intros H. injection H as <-.
  match goal with
  | |- 6371 * (2 * Ratan2 ?y ?x) <= _ =>
      pose proof (@Ratan2_le_half_pi y x (sqrt_pos _) (sqrt_pos _))
  end.
  lra.
Qed.

Lemma hav_turn : forall d : R,
  powerRZ (Rtrigo_def.sin ((d + 360) * (PI / 180) / 2)) 2 =
  powerRZ (Rtrigo_def.sin (d * (PI / 180) / 2)) 2.
Proof.
  intros d. pose proof PI_RGT_0 as Hpi.
  replace ((d + 360) * (PI / 180) / 2) with (d * (PI / 180) / 2 + PI)
    by (field; lra).
  rewrite neg_sin, !square_2. ring.
Qed.

(** X13: in exact arithmetic the distance depends on the two longitudes
    through their difference only, and a full turn of 360 degrees added to
    a longitude does not change it. *)
Theorem haversine_km_longitudes : forall lat1 lon1 lat2 lon2 k : R,
  haversine_km lat1 (lon1 + k) lat2 (lon2 + k) =
  haversine_km lat1 lon1 lat2 lon2 /\
  haversine_km lat1 lon1 lat2 (lon2 + 360) =
  haversine_km lat1 lon1 lat2 lon2.
Proof.
  intros lat1 lon1 lat2 lon2 k. rewrite !haversine_km_exact. cbv zeta.
  split.
  - replace (lon2 + k - (lon1 + k)) with (lon2 - lon1) by lra. reflexivity.
  - replace (lon2 + 360 - lon1) with (lon2 - lon1 + 360) by lra.
    rewrite hav_turn. reflexivity.
Qed.

(** ** The proximity query *)

Lemma list_toilets_exact : forall (lat lng r : R) (s : State R),
  list_toilets lat lng (Some r) s = Ok (filter (within lat lng r) (toilets_db s)).
Proof.
  intros lat lng r s. unfold list_toilets.
  rewrite scan_defined; [reflexivity|].
  apply Forall_forall. intros t _.
  rewrite haversine_km_exact. eexists. reflexivity.
Qed.

Lemma within_exact : forall (lat lng r : R) (t : Toilet R),
  within lat lng r t = true <->
  exists d, haversine_km lat lng (latitude t) (longitude t) = Ok d /\ d <= r.
Proof.
  intros lat lng r t. unfold within.
  destruct (haversine_km lat lng (latitude t) (longitude t)) as [d|e] eqn:E.
  - cbn [fle real]. rewrite Rleb_le. split.
    + intros H. exists d. auto.
    + intros (d' & Hd & Hle). injection Hd as <-. exact Hle.
  - split; [discriminate|]. intros (d & Hd & _). discriminate.
Qed.

(** X14: in exact arithmetic a larger radius returns every record that a
    smaller radius returns, for the same centre and store. *)
Theorem larger_radius_returns_more :
  forall (lat lng r1 r2 : R) (s : State R) (ts1 ts2 : list (Toilet R)),
    r1 <= r2 ->
    list_toilets lat lng (Some r1) s = Ok ts1 ->
    list_toilets lat lng (Some r2) s = Ok ts2 ->
    forall t, In t ts1 -> In t ts2.
Proof.
  intros lat lng r1 r2 s ts1 ts2 Hr H1 H2 t.
  rewrite list_toilets_exact in H1, H2. injection H1 as <-. injection H2 as <-.
  rewrite !filter_In, !within_exact.
  intros [Hin (d & Hd & Hle)]. split; [exact Hin|].
  exists d. split; [exact Hd|lra].
Qed.

(** X15: in exact arithmetic a query centred on the coordinates of a
    record of the store, with a radius that is not negative, returns that
    record. *)
Theorem query_at_record_returns_it :
  forall (s : State R) (t : Toilet R) (r : R),
    In t (toilets_db s) ->
    0 <= r ->
    exists ts,
      list_toilets (latitude t) (longitude t) (Some r) s = Ok ts /\ In t ts.
Proof.
  intros s t r Hin Hr. rewrite list_toilets_exact. eexists.
  split; [reflexivity|].
  apply filter_In. split; [exact Hin|].
  apply within_exact. exists 0. split; [apply haversine_km_same|exact Hr].
Qed.

(** X16: in exact arithmetic a query with a negative radius returns no
    record, whatever the centre and the store. *)
Theorem negative_radius_returns_nothing :
  forall (lat lng r : R) (s : State R),
    r < 0 -> list_toilets lat lng (Some r) s = Ok [].
Proof.
  intros lat lng r s Hr. rewrite list_toilets_exact. f_equal.
  induction (toilets_db s) as [|t db IH]; [reflexivity|].
  cbn [filter]. destruct (within lat lng r t) eqn:E; [|exact IH].
  exfalso. apply within_exact in E. destruct E as (d & Hd & Hle).
  apply haversine_km_nonneg in Hd. lra.
Qed.

(** ** The average *)

Local Open Scope Z_scope.

Lemma total_app : forall xs ys, total (xs ++ ys) = total xs + total ys.
Proof.
  induction xs as [|x xs IH]; intros ys; cbn [app total]; [lia|].
  rewrite IH. lia.
Qed.

Lemma total_bounds : forall xs,
  Forall (fun x => 1 <= x <= 5) xs ->
  len xs <= total xs <= 5 * len xs.
Proof.
  unfold len. intros xs H; induction H as [|x xs Hx _ IH];
    cbn [total List.length]; lia.
Qed.

Lemma scores_in_range : forall tid log,
  Forall (fun r => 1 <= r_cleanliness r <= 5) log ->
  Forall (fun x => 1 <= x <= 5) (map r_cleanliness (events_for tid log)).
Proof.
  intros tid log H. rewrite Forall_forall in *. intros x Hx.
  apply in_map_iff in Hx. destruct Hx as (r & <- & Hr).
  apply filter_In in Hr. apply H. tauto.
Qed.

(** X17: in exact arithmetic, after any run from the initial state, the
    average of a record that has one lies between 1 and 5. *)
Theorem average_between_1_and_5 :
  forall (rqs : list (Request R)) (t : Toilet R) (a : R),
    In t (toilets_db (snd (serve rqs init))) ->
    avg_cleanliness t = Some a ->
    (1 <= a <= 5)%R.
Proof.
  intros rqs t a Hin Havg.
  destruct (reachable_invariant rqs) as [_ Hc].
  pose proof (reachable_scores_in_range rqs) as Hrange.
  unfold consistent in Hc. rewrite Forall_forall in Hc.
  destruct (Hc t Hin) as [_ Hmean]. rewrite Hmean in Havg.
  pose proof (total_bounds (scores_in_range (id t) Hrange)) as Hb.
  destruct (map r_cleanliness _) as [|x xs] eqn:Exs; [discriminate|].
  cbn [arithmetic_mean] in Havg. injection Havg as <-.
  cbn [int_truediv real].
  change (x + total xs) with (total (x :: xs)).
  assert (Hn : 0 < len (x :: xs)) by (unfold len; cbn [List.length]; lia).
  set (n := len (x :: xs)) in *. set (T := total (x :: xs)) in *.
  assert (HnR : (0 < IZR n)%R) by (apply IZR_lt; exact Hn).
  assert (H1 : (IZR n <= IZR T)%R) by (apply IZR_le; lia).
  assert (H5 : (IZR T <= 5 * IZR n)%R)
    by (rewrite <- mult_IZR; apply IZR_le; lia).
  split.
  - apply Rmult_le_reg_r with (IZR n); [exact HnR|].
    unfold Rdiv. rewrite Rmult_assoc, Rinv_l by lra. lra.
  - apply Rmult_le_reg_r with (IZR n); [exact HnR|].
    unfold Rdiv. rewrite Rmult_assoc, Rinv_l by lra. lra.
Qed.

(** X18: in exact arithmetic, after any run from the initial state, the
    average that a successful submission leaves is the running mean: the
    cleanliness itself for a first rating, and otherwise the old average
    weighted by the old count, plus the cleanliness, over the new count. *)
Theorem average_is_running_mean :
  forall (rqs : list (Request R)) (tid : Z) (rating : RatingCreate)
         (t0 t : Toilet R) (s' : State R),
    let s := snd (serve rqs init) in
    get_toilet tid s = Ok t0 ->
    add_rating tid rating s = (Ok t, s') ->
    avg_cleanliness t =
    Some (match avg_cleanliness t0 with
          | None => IZR (cleanliness rating)
          | Some a =>
              ((a * IZR (rating_count t0) + IZR (cleanliness rating))
               / IZR (rating_count t0 + 1))%R
          end).
Proof.
  intros rqs tid rating t0 t s' s Hget Hadd.
  destruct (reachable_invariant rqs) as [_ Hc]. fold s in Hc.
  destruct (add_rating_ok _ _ _ Hadd) as (i & t1 & _ & Hf & Hn & Hid & -> & _).
  destruct (find_id_nth _ _ Hf) as (t2 & Hn2 & _ & Hfirst).
  unfold get_toilet in Hget. rewrite Hfirst in Hget. injection Hget as <-.
  assert (t2 = t1) by congruence. subst t2.
  unfold consistent in Hc. rewrite Forall_forall in Hc.
  destruct (Hc t1 (nth_error_In _ _ Hn)) as [Hcount Hmean].
  destruct (restat_stats
              (scores_of tid (ratings_db s ++ [new_event tid rating])) t1)
    as [_ Hnew].
  rewrite Hnew, Hmean, Hcount, Hid, scores_of_events, events_for_snoc_same.
  rewrite map_app. cbn [map new_event r_cleanliness].
  rewrite <- (len_map r_cleanliness).
  set (xs := map r_cleanliness (events_for tid (ratings_db s))).
  set (c := cleanliness rating).
  destruct xs as [|x xs]; cbn [app arithmetic_mean]; f_equal.
  - cbn [int_truediv real total len List.length Z.of_nat].
    replace (c + 0) with c by lia. change (IZR (Z.pos 1)) with 1%R. field.
  - cbn [int_truediv real].
    change (x :: xs ++ [c]) with ((x :: xs) ++ [c]).
    rewrite total_app. unfold len. rewrite length_app.
    change (total [c]) with (c + 0). change (List.length [c]) with 1%nat.
    set (n := List.length (x :: xs)). set (T := total (x :: xs)).
    replace (Z.of_nat (n + 1)) with (Z.of_nat n + 1) by lia.
    replace (c + 0) with c by lia. rewrite !plus_IZR.
    assert (HnR : (0 < IZR (Z.of_nat n))%R)
      by (apply IZR_lt; unfold n; cbn [List.length]; lia).
    field. lra.
Qed.

End ExactMore.

(** * The properties on sample data *)

Module Checks.

Import Sample.

(** The ratings 3, 4 and 5 on one record: mean 4.0, count 3. *)
Lemma submit_recomputes_mean_witness :
  add_rating 1 (rate 5) rated_3_4 = (Ok central_park_rated, rated_3_4_5) /\
  get_toilet 1 rated_3_4_5 = Ok central_park_rated /\
  rating_count central_park_rated = 3 /\
  avg_cleanliness central_park_rated = Some 4%float.
Proof.
  assert (E : add_rating 1 (rate 5) rated_3_4
              = (Ok central_park_rated, rated_3_4_5))
    by (vm_compute; reflexivity).
  destruct (proj2 submit_recomputes_mean _ _ _ _ _ E)
    as (_ & Hget & _ & Hcount & Havg).
  split; [exact E|]. split; [exact Hget|].
  split; [rewrite Hcount|rewrite Havg]; vm_compute; reflexivity.
Defined.

(** The ratings 6 and 0 are refused and leave the state as it was. *)
Lemma out_of_range_rejected_witness :
  add_rating 1 (rate 6) rated_3_4 = (Raise InvalidInput, rated_3_4) /\
  add_rating 1 (rate 0) rated_3_4 = (Raise InvalidInput, rated_3_4).
Proof.
  split; apply out_of_range_rejected; simpl; lia.
Defined.

(** Identifier 7 is unknown to a store of one record, identifier 1 is
    not. *)
Lemma lookup_by_id_witness :
  (get_toilet 7 one_record = Raise NotFound /\
   add_rating 7 (rate 3) one_record = (Raise NotFound, one_record)) /\
  exists t, get_toilet 1 one_record = Ok t /\
            In t (toilets_db one_record) /\ id t = 1.
Proof.
  split.
  - destruct (proj1 (@lookup_by_id float _) 7 one_record) as [Hget Hadd].
    + simpl. intros t [<-|[]]. simpl. lia.
    + split; [exact Hget|]. apply Hadd. simpl. lia.
  - apply (proj2 (@lookup_by_id float _) 1 one_record).
    exists central_park_record. split; [left|]; reflexivity.
Defined.

(** A rating of 0 for the unknown identifier 7: refused as out of range. *)
Lemma range_check_precedes_lookup_witness :
  add_rating 7 (rate 0) one_record = (Raise InvalidInput, one_record) /\
  get_toilet 7 one_record = Raise NotFound /\
  InvalidInput <> NotFound.
Proof.
  apply range_check_precedes_lookup.
  - simpl. lia.
  - simpl. intros t [<-|[]]. simpl. lia.
Defined.

(** The third rating changes the statistics of the one record and nothing
    else. *)
Lemma submit_frame_witness :
  next_toilet_id rated_3_4_5 = 2 /\
  List.length (toilets_db rated_3_4_5) = 1%nat /\
  exists u', nth_error (toilets_db rated_3_4_5) 0 = Some u' /\
             same_description u' central_park_record.
Proof.
  assert (E : add_rating 1 (rate 5) rated_3_4
              = (Ok central_park_rated, rated_3_4_5))
    by (vm_compute; reflexivity).
  destruct (submit_frame _ _ _ E) as (Hnext & Hlen & Hframe).
  split; [rewrite Hnext; reflexivity|].
  split; [rewrite Hlen; reflexivity|].
  destruct (Hframe O (set_stats (Some 3.5%float) 2 central_park_record))
    as (u' & Hu' & Hsame & _).
  - vm_compute. reflexivity.
  - exists u'. split; [exact Hu'|exact Hsame].
Defined.

(** Great-circle distances along the equator. *)






(** C7 (as stated): in binary64, with the reference C library, the
    distance from a point to itself is NaN when its latitude is NaN,
    and is not returned at all when its latitude is infinite; nothing
    refuses such coordinates. *)
Lemma distance_to_itself_not_zero :
  (exists d : float,
      @haversine_km _ _ Reference.libm nan 0%float nan 0%float = Ok d /\
      is_nan d = true) /\
  @haversine_km _ _ Reference.libm infinity 0%float infinity 0%float =
    Raise (ValueError "math domain error").
Proof.
  split; [exists nan; split|]; vm_compute; reflexivity.
Qed.

(** With the reference C library: the distance between the sample
    point and the point at latitude 2.5 and longitude 0 is the same
    double in both directions, and the distance from the sample point to
    itself is [+0]. *)
Lemma haversine_symmetric_zero_witness :
  @haversine_km _ _ Reference.libm
    (tc_latitude central_park) (tc_longitude central_park) 2.5%float 0%float
  = Ok 0x1.0901b070d47ffp+13%float /\
  @haversine_km _ _ Reference.libm
    2.5%float 0%float (tc_latitude central_park) (tc_longitude central_park)
  = Ok 0x1.0901b070d47ffp+13%float /\
  @haversine_km _ _ Reference.libm
    (tc_latitude central_park) (tc_longitude central_park)
    (tc_latitude central_park) (tc_longitude central_park)
  = Ok 0%float.
Proof.
  destruct haversine_symmetric_zero as (_ & Hswap & Hsame).
  assert (E : @haversine_km _ _ Reference.libm
                (tc_latitude central_park) (tc_longitude central_park)
                2.5%float 0%float
              = Ok 0x1.0901b070d47ffp+13%float)
    by (vm_compute; reflexivity).
  split; [exact E|]. split.
  - exact (Hswap Reference.libm ReferenceFacts.sin_odd
             ReferenceFacts.square_even _ _ _ _ _ E).
  - eapply (Hsame Reference.libm); vm_compute; reflexivity.
Defined.

(** C9 (as stated): a create request with the empty name is accepted, and
    the record stored and returned has the empty name. *)
Lemma empty_name_accepted :
  tc_name nameless = ""%string /\
  create_toilet nameless init =
    (nameless_record,
     {| toilets_db := [nameless_record];
        ratings_db := [];
        next_toilet_id := 2 |}) /\
  name nameless_record = ""%string.
Proof. repeat split. Qed.

(** Two create requests with a rating between them: the second record of
    the store has the name of the second create request, the empty one, and
    the identifier 2. *)
Lemma names_are_as_submitted_witness :
  exists toilet : ToiletCreate float,
    nth_error [central_park; nameless] 1 = Some toilet /\
    name (fst (create_toilet nameless one_record)) = tc_name toilet /\
    id (fst (create_toilet nameless one_record)) = 2.
Proof.
  apply (proj2 (proj2 (@names_are_as_submitted float _ Reference.libm))
               [PostToilet central_park; PostRating 1 (rate 3);
                PostToilet nameless]
               1%nat).
  vm_compute. reflexivity.
Defined.

End Checks.

(** * The further properties on sample data *)

Module MoreChecks.

Import Sample.

(** Recomputing for identifier 7 in a store whose one record has
    identifier 1. *)
Lemma recompute_rating_stats_unknown_witness :
  recompute_rating_stats 7 one_record = one_record.
Proof.
  apply recompute_rating_stats_unknown.
  simpl. intros t [<-|[]]. simpl. lia.
Defined.

(** A rating of 4 for the record there is returns a record; a rating of 4
    for identifier 7 raises the 404 error and changes nothing. *)
Lemma add_rating_outcome_witness :
  (exists t s', add_rating 1 (rate 4) one_record = (Ok t, s')) /\
  (one_record = one_record /\ (NotFound = InvalidInput \/ NotFound = NotFound)).
Proof.
  split.
  - apply (proj1 (@add_rating_outcome float _ 1 (rate 4) one_record)).
    split; [simpl; lia|].
    exists central_park_record. split; [left|]; reflexivity.
  - apply (proj2 (@add_rating_outcome float _ 7 (rate 4) one_record)
                 NotFound one_record).
    vm_compute. reflexivity.
Defined.

(** With two records in the store, rating the second or creating a third
    leaves the lookup of the first as it was. *)
Lemma lookup_unaffected_witness :
  get_toilet 1 (snd (add_rating 2 (rate 4) two_records)) =
  get_toilet 1 two_records /\
  get_toilet 1 (snd (create_toilet central_park two_records)) =
  get_toilet 1 two_records.
Proof.
  split.
  - apply (proj1 (@lookup_unaffected float _)). lia.
  - apply (proj2 (@lookup_unaffected float _)). simpl. lia.
Defined.

(** A rating and a creation later, the first record is still first, with
    the description it had. *)
Lemma store_and_log_only_grow_witness :
  exists u',
    nth_error
      (toilets_db (snd (serve [PostRating 1 (rate 4); PostToilet equator]
                              equator_store))) 0 = Some u' /\
    same_description u' equator_record.
Proof.
  destruct (@store_and_log_only_grow R _ _
              [PostRating 1 (rate 4); PostToilet equator] equator_store)
    as (_ & _ & Hframe).
  apply (Hframe O equator_record). reflexivity.
Defined.

Lemma sample_run_state : snd (serve sample_run init) = equator_rated_store.
Proof. reflexivity. Qed.

(** The record of the sample run has count 1 and an average. *)
Lemma count_and_average_agree_witness :
  0 <= rating_count equator_rated /\
  (avg_cleanliness equator_rated = None <-> rating_count equator_rated = 0).
Proof.
  apply (@count_and_average_agree R _ _ sample_run).
  rewrite sample_run_state. left. reflexivity.
Defined.

(** In the store of the sample run, identifier 1 is found at the first
    position and identifier 5 is not found. *)
Lemma lookup_by_position_witness :
  (exists t, nth_error (toilets_db (snd (serve sample_run init))) 0 = Some t /\
             get_toilet 1 (snd (serve sample_run init)) = Ok t /\ id t = 1) /\
  get_toilet 5 (snd (serve sample_run init)) = Raise NotFound.
Proof.
  split.
  - apply (proj1 (@lookup_by_position R _ _ sample_run 1)).
    rewrite sample_run_state. unfold len. simpl. lia.
  - apply (proj2 (@lookup_by_position R _ _ sample_run 5)).
    rewrite sample_run_state. unfold len. simpl. lia.
Defined.

(** The first rating of a record takes its count from 0 to 1 and the log
    from no event to one. *)
Lemma submit_counts_one_more_witness :
  rating_count equator_rated = rating_count equator_record + 1 /\
  len (ratings_db equator_rated_store) =
  len (ratings_db (snd (serve [PostToilet equator] init))) + 1.
Proof.
  apply (@submit_counts_one_more R _ _ [PostToilet equator] 1 (rate 4)
           equator_record equator_rated equator_rated_store);
    reflexivity.
Defined.

(** A distance of 0 is at most half the circumference. *)
Lemma haversine_km_at_most_half_way_witness : (0 <= 6371 * PI)%R.
Proof.
  apply (@ExactMore.haversine_km_at_most_half_way 0%R 12%R 0%R 12%R 0%R).
  apply ExactFacts.haversine_km_same.
Defined.

Lemma query_at_equator : forall r : R,
  (0 <= r)%R ->
  list_toilets 0%R 12%R (Some r) equator_store = Ok [equator_record].
Proof.
  intros r Hr. rewrite ExactMore.list_toilets_exact.
  cbn [equator_store create_toilet snd toilets_db init app filter].
  replace (within 0%R 12%R r _) with true; [reflexivity|].
  symmetry. apply ExactMore.within_exact. exists 0%R.
  split; [apply ExactFacts.haversine_km_same|exact Hr].
Qed.

(** The record returned with radius 1 is returned with radius 2. *)
Lemma larger_radius_returns_more_witness :
  In equator_record [equator_record].
Proof.
  apply (@ExactMore.larger_radius_returns_more 0%R 12%R 1%R 2%R equator_store
           [equator_record] [equator_record]).
  - lra.
  - apply query_at_equator. lra.
  - apply query_at_equator. lra.
  - left. reflexivity.
Defined.

(** A query at the coordinates of the one record, radius 1. *)
Lemma query_at_record_returns_it_witness :
  exists ts,
    list_toilets 0%R 12%R (Some 1%R) equator_store = Ok ts /\
    In equator_record ts.
Proof.
  apply (@ExactMore.query_at_record_returns_it equator_store equator_record 1%R).
  - left. reflexivity.
  - lra.
Defined.

(** A query with radius -1. *)
Lemma negative_radius_returns_nothing_witness :
  list_toilets 0%R 12%R (Some (-1)%R) equator_store = Ok [].
Proof.
  apply ExactMore.negative_radius_returns_nothing. lra.
Defined.

(** The average of the sample run, 4, lies between 1 and 5. *)
Lemma average_between_1_and_5_witness : (1 <= IZR 4 / IZR 1 <= 5)%R.
Proof.
  apply (@ExactMore.average_between_1_and_5 sample_run equator_rated).
  - rewrite sample_run_state. left. reflexivity.
  - reflexivity.
Defined.

(** The first rating of a record: the average is the rating. *)
Lemma average_is_running_mean_witness :
  avg_cleanliness equator_rated = Some (IZR 4).
Proof.
  apply (@ExactMore.average_is_running_mean [PostToilet equator] 1 (rate 4)
           equator_record equator_rated equator_rated_store);
    reflexivity.
Defined.

End MoreChecks.
